(** * Secrets manager: secret store and form sessions

    A shallow embedding of [enhanced-service.ts] (class
    [EnhancedSecretManager]), [services/ngrok-service.ts] (class
    [NgrokService]) and [services/secret-form-service.ts] (class
    [SecretFormService]), followed by the properties the specification
    states about them.

    Conventions.  JavaScript objects used as dictionaries are finite
    maps over their own properties; [undefined] and [null] are [None];
    a method that can throw returns a [result]; the mutable fields of a
    service are a record threaded through every call. *)

From Stdlib Require Import Ascii.
From stdpp Require Import gmap strings list fin_maps pretty.

Open Scope string_scope.
Open Scope list_scope.
Open Scope nat_scope.

(** ** Results of code that can throw *)

Inductive result (A : Type) : Type :=
  | Ok (a : A)
  | Throw (msg : string).
Arguments Ok {A} a.
Arguments Throw {A} msg.

(** ** JavaScript truthiness on optional strings *)

(** [!!s] for [s : string | undefined]. *)
Definition truthy (o : option string) : bool :=
  match o with
  | Some s => negb (bool_decide (s = ""))
  | None => false
  end.

(** [a || d] for [a : string | undefined] and a string [d]. *)
Definition or_str (o : option string) (d : string) : string :=
  match o with
  | Some s => if bool_decide (s = "") then d else s
  | None => d
  end.

(** [a ?? d]. *)
Definition nullish {A : Type} (o : option A) (d : A) : A :=
  match o with Some a => a | None => d end.

(** [key.startsWith(p)]. *)
Fixpoint startsWith (p s : string) : bool :=
  match p, s with
  | EmptyString, _ => true
  | String a p', String b s' => bool_decide (a = b) && startsWith p' s'
  | String _ _, EmptyString => false
  end.

(** [s.substring(n)]. *)
Fixpoint substring_from (n : nat) (s : string) : string :=
  match n, s with
  | O, _ => s
  | S n', String _ s' => substring_from n' s'
  | S _, EmptyString => EmptyString
  end.

(** [arr.slice(-n)]: the last [n] elements. *)
Definition slice_last {A : Type} (n : nat) (l : list A) : list A :=
  drop (length l - n) l.

(** [arr.find(p)]. *)
Fixpoint find_first {A : Type} (p : A → bool) (l : list A) : option A :=
  match l with
  | [] => None
  | x :: l' => if p x then Some x else find_first p l'
  end.

(** [arr.findIndex(p)], [None] for [-1]. *)
Fixpoint findIndex {A : Type} (p : A → bool) (l : list A) : option nat :=
  match l with
  | [] => None
  | x :: l' => if p x then Some 0 else S <$> findIndex p l'
  end.

(** ** Data model ([types.ts]) *)

Inductive Level := Lglobal | Lworld | Luser.
Inductive Action := Aread | Awrite | Adelete | Ashare.

(** Modelled from the spec: the [Role] enumeration is imported from
    [@elizaos/core]; the role-lookup collaborator of the specification
    ranges over NONE, MEMBER, ADMIN and OWNER. *)
Inductive Role := NONE | MEMBER | ADMIN | OWNER.

Global Instance Level_eq_dec : EqDecision Level.
Proof. solve_decision. Defined.
Global Instance Action_eq_dec : EqDecision Action.
Proof. solve_decision. Defined.
Global Instance Role_eq_dec : EqDecision Role.
Proof. solve_decision. Defined.

Record SecretContext := mkContext {
  ctx_level : Level;
  ctx_worldId : option string;
  ctx_userId : option string;
  ctx_agentId : string;
  ctx_requesterId : option string;
}.

Record EncryptedSecret := mkEncrypted {
  enc_value : string;
  enc_iv : string;
  enc_authTag : option string;
  enc_algorithm : string;
  enc_keyId : string;
}.

(** What a [value] slot can hold at run time: a string, an
    [EncryptedSecret], or some other object (the legacy fallback of
    [getWorldSecret] can hand back a whole record; its content is not
    inspected anywhere, so it is opaque here). *)
Inductive Value :=
  | VString (s : string)
  | VEncrypted (e : EncryptedSecret)
  | VObject.

(** [!!v]. *)
Definition value_truthy (v : option Value) : bool :=
  match v with
  | Some (VString s) => negb (bool_decide (s = ""))
  | Some _ => true
  | None => false
  end.

(** [v || null]. *)
Definition value_or_null (v : option Value) : option Value :=
  if value_truthy v then v else None.

Record SecretPermission := mkPermission {
  perm_entityId : string;
  perm_permissions : list string;
  perm_grantedBy : string;
  perm_grantedAt : N;
  perm_expiresAt : option N;
}.

Record SecretConfig := mkConfig {
  cfg_value : option Value;
  cfg_type : string;
  cfg_required : bool;
  cfg_description : string;
  cfg_canGenerate : bool;
  cfg_validationMethod : option string;
  cfg_status : string;
  cfg_attempts : nat;
  cfg_createdAt : option N;
  cfg_validatedAt : option N;
  cfg_plugin : string;
  cfg_level : Level;
  cfg_ownerId : option string;
  cfg_worldId : option string;
  cfg_encrypted : option bool;
  cfg_permissions : option (list SecretPermission);
  cfg_sharedWith : option (list string);
}.

(** [{ ...config, value: v }]. *)
Definition with_value (c : SecretConfig) (v : option Value) : SecretConfig :=
  mkConfig v (cfg_type c) (cfg_required c) (cfg_description c)
    (cfg_canGenerate c) (cfg_validationMethod c) (cfg_status c)
    (cfg_attempts c) (cfg_createdAt c) (cfg_validatedAt c) (cfg_plugin c)
    (cfg_level c) (cfg_ownerId c) (cfg_worldId c) (cfg_encrypted c)
    (cfg_permissions c) (cfg_sharedWith c).

(** [config.permissions = p; config.sharedWith = s]. *)
Definition with_sharing (c : SecretConfig) (p : option (list SecretPermission))
    (s : option (list string)) : SecretConfig :=
  mkConfig (cfg_value c) (cfg_type c) (cfg_required c) (cfg_description c)
    (cfg_canGenerate c) (cfg_validationMethod c) (cfg_status c)
    (cfg_attempts c) (cfg_createdAt c) (cfg_validatedAt c) (cfg_plugin c)
    (cfg_level c) (cfg_ownerId c) (cfg_worldId c) (cfg_encrypted c) p s.

(** [Partial<SecretConfig>], restricted to the fields [set] reads. *)
Record PartialConfig := mkPartial {
  p_type : option string;
  p_validationMethod : option string;
  p_required : option bool;
  p_description : option string;
  p_plugin : option string;
  p_encrypted : option bool;
  p_permissions : option (list SecretPermission);
}.

(** A full [SecretConfig] passed where a partial one is expected. *)
Definition as_partial (c : SecretConfig) : PartialConfig :=
  mkPartial (Some (cfg_type c)) (cfg_validationMethod c) (Some (cfg_required c))
    (Some (cfg_description c)) (Some (cfg_plugin c)) (cfg_encrypted c)
    (cfg_permissions c).

(** [SecretMetadata]: key to configuration. *)
Abbreviation SecretMetadata := (gmap string SecretConfig).

Record SecretAccessLog := mkLog {
  log_secretKey : string;
  log_accessedBy : string;
  log_action : Action;
  log_timestamp : N;
  log_context : SecretContext;
  log_success : bool;
  log_error : option string;
}.

Record ValidationResult := mkValidation {
  isValid : bool;
  validation_error : option string;
}.

(** ** The host runtime (worlds and components)

    The persistence primitives of the host: worlds by id and a table of
    components, after the in-memory runtime of
    [__tests__/plugin-integration.test.ts]. *)

(** An entry of [world.metadata.secrets]: a record written by
    [setWorldSecret], or a bare string from before records existed. *)
Inductive MetaSecret :=
  | MSString (s : string)
  | MSConfig (c : SecretConfig).

Record WorldMetadata := mkMetadata {
  meta_roles : option (gmap string Role);
  meta_secrets : option (gmap string MetaSecret);
}.

Record World := mkWorld {
  world_metadata : option WorldMetadata;
}.

Record ComponentData := mkData {
  data_key : string;
  data_value : option Value;
  data_metadata : option SecretConfig;
  data_encrypted : bool;
  data_updatedAt : N;
}.

Record Component := mkComponent {
  comp_id : string;
  comp_entityId : string;
  comp_type : string;
  comp_data : option ComponentData;
}.

(** ** Collaborators outside the repository's sources

    The parent class [EnvManagerService] ([./service]), the validator
    ([./validation]), [createUniqueUuid] of the core package and Node's
    [crypto] are taken as an interface.  [randomBytes n] is the
    base64 text of the [n]-th initialisation vector drawn; [gcm_seal key
    iv plaintext] is the base64 ciphertext and tag of AES-256-GCM;
    [gcm_open key iv tag ciphertext] is [None] when [decipher.final]
    throws (tag missing or not verifying). *)
Class Host := {
  Env : Type;
  getEnvVar : Env → string → option string;
  updateEnvVar : Env → string → string → SecretConfig → result Env;
  validateEnvVar : string → Value → string → option string → ValidationResult;
  createUniqueUuid : string → string → string;
  randomBytes : nat → string;
  gcm_seal : string → string → string → string * string;
  gcm_open : string → string → option string → string → option string;
}.

(** What is assumed of AES-256-GCM where a property needs it: the tag
    is not empty, and opening what was sealed, with the tag sealing
    produced, gives the plaintext back. *)
Definition AuthenticatedCipher `{host : Host} : Prop :=
  ∀ key iv plaintext,
    (gcm_seal key iv plaintext).2 ≠ ""
    ∧ gcm_open key iv (Some (gcm_seal key iv plaintext).2)
        (gcm_seal key iv plaintext).1 = Some plaintext.

(** * EnhancedSecretManager ([enhanced-service.ts]) *)

Section Manager.
Context `{host : Host}.

(** The fields of the service, the runtime it holds, the clock read by
    [Date.now()] and the number of vectors drawn from [randomBytes]. *)
Record State := mkState {
  agentId : string;
  encryptionKey : string;
  secretCache : gmap string SecretMetadata;
  accessLogs : list SecretAccessLog;
  worlds : gmap string World;
  components : list Component;
  env : Env;
  clock : N;
  drawn : nat;
}.

Definition set_secretCache (f : gmap string SecretMetadata → gmap string SecretMetadata)
    (s : State) : State :=
  mkState (agentId s) (encryptionKey s) (f (secretCache s)) (accessLogs s)
    (worlds s) (components s) (env s) (clock s) (drawn s).

Definition set_accessLogs (f : list SecretAccessLog → list SecretAccessLog)
    (s : State) : State :=
  mkState (agentId s) (encryptionKey s) (secretCache s) (f (accessLogs s))
    (worlds s) (components s) (env s) (clock s) (drawn s).

Definition set_worlds (f : gmap string World → gmap string World) (s : State) : State :=
  mkState (agentId s) (encryptionKey s) (secretCache s) (accessLogs s)
    (f (worlds s)) (components s) (env s) (clock s) (drawn s).

Definition set_components (f : list Component → list Component)
    (s : State) : State :=
  mkState (agentId s) (encryptionKey s) (secretCache s) (accessLogs s)
    (worlds s) (f (components s)) (env s) (clock s) (drawn s).

Definition set_env (e : Env) (s : State) : State :=
  mkState (agentId s) (encryptionKey s) (secretCache s) (accessLogs s)
    (worlds s) (components s) e (clock s) (drawn s).

Definition set_drawn (n : nat) (s : State) : State :=
  mkState (agentId s) (encryptionKey s) (secretCache s) (accessLogs s)
    (worlds s) (components s) (env s) (clock s) n.

(** *** State and exceptions *)

Definition M (A : Type) : Type := State → State * result A.

Definition ret {A : Type} (a : A) : M A := λ s, (s, Ok a).

Definition throw {A : Type} (msg : string) : M A := λ s, (s, Throw msg).

Definition bind {A B : Type} (m : M A) (k : A → M B) : M B :=
  λ s, match m s with
       | (s', Ok a) => k a s'
       | (s', Throw e) => (s', Throw e)
       end.

(** [try { m } catch (error) { h error.message }]. *)
Definition try_catch {A : Type} (m : M A) (h : string → M A) : M A :=
  λ s, match m s with
       | (s', Ok a) => (s', Ok a)
       | (s', Throw e) => h e s'
       end.

Definition gets {A : Type} (f : State → A) : M A := λ s, (s, Ok (f s)).

Definition modify (f : State → State) : M unit := λ s, (f s, Ok ()).

Notation "'let!' x ':=' m 'in' k" := (bind m (λ x, k))
  (at level 10, x pattern, m at level 100, k at level 200).
Notation "m ';;' k" := (bind m (λ _, k))
  (at level 100, k at level 200, right associativity).

(** *** Runtime calls *)

(** [runtime.getWorld(id)]. *)
Definition getWorld (id : string) (s : State) : option World := worlds s !! id.

(** [runtime.updateWorld(world)]. *)
Definition updateWorld (id : string) (w : World) : M unit :=
  modify (set_worlds (λ ws, <[id := w]> ws)).

(** [runtime.getComponents(entityId)]: the rows of that entity. *)
Definition getComponents (entityId : string) (s : State) : list Component :=
  filter (λ c, comp_entityId c = entityId) (components s).

(** [runtime.createComponent(component)]. *)
Definition createComponent (c : Component) : M unit :=
  modify (set_components (λ cs, cs ++ [c])).

(** [runtime.updateComponent(component)]: rows are addressed by id. *)
Definition updateComponent (c : Component) : M unit :=
  modify (set_components
    (fmap (λ row, if bool_decide (comp_id row = comp_id c) then c else row))).

(** *** Encryption *)

(** [encrypt(value)]: [cipher.update] rejects anything but a string. *)
Definition encrypt (value : Value) : M EncryptedSecret :=
  match value with
  | VString v =>
      λ s,
        let iv := randomBytes (drawn s) in
        let '(encrypted, authTag) := gcm_seal (encryptionKey s) iv v in
        (set_drawn (S (drawn s)) s,
         Ok (mkEncrypted encrypted iv (Some authTag) "aes-256-gcm" "default"))
  | _ => throw "The data argument must be of type string"
  end.

(** [decrypt(encryptedData)]. *)
Definition decrypt (encryptedData : option Value) : M string :=
  match encryptedData with
  | Some (VString v) => ret v
  | Some (VEncrypted e) =>
      λ s,
        let tag := if truthy (enc_authTag e) then enc_authTag e else None in
        match gcm_open (encryptionKey s) (enc_iv e) tag (enc_value e) with
        | Some decrypted => (s, Ok decrypted)
        | None => (s, Throw "Unsupported state or unable to authenticate data")
        end
  | _ => throw "The first argument must be of type string"
  end.

(** *** Audit log *)

(** [this.accessLogs.push(log)] and the trimming that follows it. *)
Definition pushLog (log : SecretAccessLog) (logs : list SecretAccessLog)
    : list SecretAccessLog :=
  let pushed := logs ++ [log] in
  if bool_decide (1000 < length pushed) then slice_last 1000 pushed else pushed.

(** The entry [logAccess] builds. *)
Definition logEntry (key : string) (action : Action) (context : SecretContext)
    (success : bool) (error : option string) (s : State) : SecretAccessLog :=
  mkLog key
    (or_str (ctx_requesterId context) (or_str (ctx_userId context) (agentId s)))
    action (clock s) context success error.

Definition logAccess (key : string) (action : Action) (context : SecretContext)
    (success : bool) (error : option string) : M unit :=
  λ s, (set_accessLogs (pushLog (logEntry key action context success error s)) s,
        Ok ()).

Definition getAccessLogs (key : string) (context : option SecretContext)
    (s : State) : list SecretAccessLog :=
  filter (λ log,
    bool_decide (log_secretKey log = key) &&
    match context with
    | Some c =>
        bool_decide (ctx_level (log_context log) = ctx_level c) &&
        (negb (truthy (ctx_worldId c))
         || bool_decide (ctx_worldId (log_context log) = ctx_worldId c)) &&
        (negb (truthy (ctx_userId c))
         || bool_decide (ctx_userId (log_context log) = ctx_userId c))
    | None => true
    end = true) (accessLogs s).

(** *** Permission check *)

(** [world.metadata?.roles?.[requesterId || ''] || Role.NONE]. *)
Definition requesterRole (world : World) (requesterId : option string) : Role :=
  default NONE
    (((world_metadata world) ≫= meta_roles) ≫= (λ roles, roles !! or_str requesterId "")).

Definition checkPermission (key : string) (action : Action)
    (context : SecretContext) (s : State) : bool :=
  match ctx_level context with
  | Lglobal =>
      if bool_decide (action = Aread) then true
      else bool_decide (ctx_requesterId context = Some (agentId s))
  | Lworld =>
      if truthy (ctx_worldId context) then
        match getWorld (or_str (ctx_worldId context) "") s with
        | None => false
        | Some world =>
            let role := requesterRole world (ctx_requesterId context) in
            if bool_decide (action = Aread) then true
            else bool_decide (role = OWNER) || bool_decide (role = ADMIN)
        end
      else false
  | Luser =>
      if truthy (ctx_userId context)
      then bool_decide (ctx_requesterId context = ctx_userId context)
      else false
  end.

(** *** Reading and writing at each level *)

Definition cacheKey (worldId : string) : string := "world:" +:+ worldId.

Definition levelName (l : Level) : string :=
  match l with Lglobal => "global" | Lworld => "world" | Luser => "user" end.

Definition getGlobalSecret (key : string) : M (option Value) :=
  let! envValue := gets (λ s, getEnvVar (env s) key) in
  if truthy envValue then ret (VString <$> envValue)
  else
    let! globalSecrets := gets (λ s, secretCache s !! "global") in
    let config := globalSecrets ≫= (λ g, g !! key) in
    ret (value_or_null (config ≫= cfg_value)).

Definition setGlobalSecret (key : string) (value : Value) (config : SecretConfig)
    : M bool :=
  let envKey := if startsWith "ENV_" key then substring_from 4 key else key in
  (λ s, match updateEnvVar (env s) (or_str (Some (cfg_plugin config)) "global")
                envKey (with_value config (Some value)) with
        | Ok e => (set_env e s, Ok ())
        | Throw msg => (s, Throw msg)
        end);;
  modify (set_secretCache (λ c,
    <["global" := <[key := config]> (default ∅ (c !! "global"))]> c));;
  ret true.

Definition getWorldSecret (key worldId : string) : M (option Value) :=
  let! worldSecrets := gets (λ s, secretCache s !! cacheKey worldId) in
  match worldSecrets ≫= (λ ws, ws !! key) with
  | Some config =>
      if nullish (cfg_encrypted config) false && value_truthy (cfg_value config)
      then let! plain := decrypt (cfg_value config) in ret (Some (VString plain))
      else ret (value_or_null (cfg_value config))
  | None =>
      let! world := gets (getWorld worldId) in
      match ((world ≫= world_metadata) ≫= meta_secrets) ≫= (λ ss, ss !! key) with
      | Some (MSString str) =>
          if bool_decide (str = "") then ret None else ret (Some (VString str))
      | Some (MSConfig secretData) =>
          if nullish (cfg_encrypted secretData) false
          then let! plain := decrypt (cfg_value secretData) in
               ret (Some (VString plain))
          else if value_truthy (cfg_value secretData)
               then ret (cfg_value secretData)
               else ret (Some VObject)
      | None => ret None
      end
  end.

(** [config.encrypted ? await this.encrypt(value) : value]. *)
Definition finalValueOf (value : Value) (config : SecretConfig) : M Value :=
  if nullish (cfg_encrypted config) false
  then let! e := encrypt value in ret (VEncrypted e)
  else ret value.

Definition setWorldSecret (key : string) (value : Value) (worldId : string)
    (config : SecretConfig) : M bool :=
  let! world := gets (getWorld worldId) in
  match world with
  | None => throw ("World " +:+ worldId +:+ " not found")
  | Some world =>
      let metadata := default (mkMetadata None None) (world_metadata world) in
      let secrets := default ∅ (meta_secrets metadata) in
      let! finalValue := finalValueOf value config in
      let stored := with_value config (Some finalValue) in
      updateWorld worldId
        (mkWorld (Some (mkMetadata (meta_roles metadata)
                          (Some (<[key := MSConfig stored]> secrets)))));;
      modify (set_secretCache (λ c,
        <[cacheKey worldId := <[key := stored]> (default ∅ (c !! cacheKey worldId))]> c));;
      ret true
  end.

(** [(c) => c.data?.key === key && c.type === 'secret']. *)
Definition isSecretFor (key : string) (c : Component) : bool :=
  match comp_data c with
  | Some d => bool_decide (data_key d = key)
  | None => false
  end && bool_decide (comp_type c = "secret").

(** [typeof v === 'object' && v.algorithm]. *)
Definition hasAlgorithm (v : option Value) : bool :=
  match v with
  | Some (VEncrypted e) => negb (bool_decide (enc_algorithm e = ""))
  | _ => false
  end.

Definition getUserSecret (key userId : string) : M (option Value) :=
  let! comps := gets (getComponents userId) in
  match find_first (isSecretFor key) comps ≫= comp_data with
  | None => ret None
  | Some secretData =>
      if nullish (data_metadata secretData ≫= cfg_encrypted) false
         && value_truthy (data_value secretData)
         && hasAlgorithm (data_value secretData)
      then let! plain := decrypt (data_value secretData) in
           ret (Some (VString plain))
      else if data_encrypted secretData && value_truthy (data_value secretData)
      then let! plain := decrypt (data_value secretData) in
           ret (Some (VString plain))
      else ret (value_or_null (data_value secretData))
  end.

Definition setUserSecret (key : string) (value : Value) (userId : string)
    (config : SecretConfig) : M bool :=
  let! existingComponents := gets (getComponents userId) in
  let existingComponent := find_first (isSecretFor key) existingComponents in
  let! finalValue := finalValueOf value config in
  let! now := gets clock in
  let componentData := mkData key (Some finalValue) (Some config) false now in
  match existingComponent with
  | Some existing =>
      updateComponent (mkComponent (comp_id existing) (comp_entityId existing)
                         (comp_type existing) (Some componentData))
  | None =>
      let! agent := gets agentId in
      createComponent (mkComponent (createUniqueUuid agent (userId +:+ "-" +:+ key))
                         userId "secret" (Some componentData))
  end;;
  ret true.

(** *** get and set *)

(** The [switch (context.level)] of [get]. *)
Definition getAtLevel (key : string) (context : SecretContext) : M (option Value) :=
  match ctx_level context with
  | Lglobal => getGlobalSecret key
  | Lworld =>
      if truthy (ctx_worldId context)
      then getWorldSecret key (or_str (ctx_worldId context) "")
      else throw "World ID required for world-level secrets"
  | Luser =>
      if truthy (ctx_userId context)
      then getUserSecret key (or_str (ctx_userId context) "")
      else throw "User ID required for user-level secrets"
  end.

Definition get (key : string) (context : SecretContext) : M (option Value) :=
  try_catch
    (logAccess key Aread context true None;;
     let! allowed := gets (checkPermission key Aread context) in
     if negb allowed then
       logAccess key Aread context false (Some "Permission denied");;
       ret None
     else getAtLevel key context)
    (λ message,
       logAccess key Aread context false (Some message);;
       ret None).

(** The [fullConfig] literal of [set]. *)
Definition fullConfigOf (key : string) (value : Value) (context : SecretContext)
    (config : option PartialConfig) (now : N) : SecretConfig :=
  mkConfig (Some value)
    (or_str (config ≫= p_type) "secret")
    (nullish (config ≫= p_required) false)
    (or_str (config ≫= p_description) ("Secret: " +:+ key))
    false None "valid" 0 (Some now) (Some now)
    (or_str (config ≫= p_plugin) (levelName (ctx_level context)))
    (ctx_level context) (ctx_userId context) (ctx_worldId context)
    (Some (nullish (config ≫= p_encrypted) true))
    (config ≫= p_permissions) None.

(** The validation step of [set]: the message thrown, if any. *)
Definition validationFailure (key : string) (value : Value)
    (config : option PartialConfig) : option string :=
  if truthy (config ≫= p_validationMethod) || truthy (config ≫= p_type) then
    let validation :=
      validateEnvVar key value (or_str (config ≫= p_type) "secret")
        (config ≫= p_validationMethod) in
    if isValid validation then None
    else Some ("Validation failed: "
               +:+ default "undefined" (validation_error validation))
  else None.

(** The [switch (context.level)] of [set]. *)
Definition setAtLevel (key : string) (value : Value) (context : SecretContext)
    (fullConfig : SecretConfig) : M bool :=
  match ctx_level context with
  | Lglobal => setGlobalSecret key value fullConfig
  | Lworld =>
      if truthy (ctx_worldId context)
      then setWorldSecret key value (or_str (ctx_worldId context) "") fullConfig
      else throw "World ID required for world-level secrets"
  | Luser =>
      if truthy (ctx_userId context)
      then setUserSecret key value (or_str (ctx_userId context) "") fullConfig
      else throw "User ID required for user-level secrets"
  end.

Definition set (key : string) (value : Value) (context : SecretContext)
    (config : option PartialConfig) : M bool :=
  try_catch
    (logAccess key Awrite context true None;;
     let! allowed := gets (checkPermission key Awrite context) in
     if negb allowed then
       logAccess key Awrite context false (Some "Permission denied");;
       ret false
     else
       match validationFailure key value config with
       | Some message => throw message
       | None => ret ()
       end;;
       let! now := gets clock in
       setAtLevel key value context (fullConfigOf key value context config now))
    (λ message,
       logAccess key Awrite context false (Some message);;
       ret false).

(** *** Listing *)

(** [{ ...config, value: undefined }]. *)
Definition strip (config : SecretConfig) : SecretConfig := with_value config None.

(** [{ ...undefined }]: properties absent from the object read as
    their empty defaults. *)
Definition noMetadata : SecretConfig :=
  mkConfig None "" false "" false None "" 0 None None "" Luser
    None None None None None.

(** The loop of [list(context)] over the components of a user. *)
Fixpoint listComponents (comps : list Component) (filteredSecrets : SecretMetadata)
    : result SecretMetadata :=
  match comps with
  | [] => Ok filteredSecrets
  | component :: rest =>
      if bool_decide (comp_type component = "secret") then
        match comp_data component with
        | Some data =>
            listComponents rest
              (<[data_key data := strip (default noMetadata (data_metadata data))]>
                 filteredSecrets)
        | None => Throw "Cannot read properties of undefined"
        end
      else listComponents rest filteredSecrets
  end.

(** [list(context)]; [list] is the type of lists here, hence the name. *)
Definition listSecrets (context : SecretContext) : M SecretMetadata :=
  match ctx_level context with
  | Lglobal =>
      let! globalSecrets := gets (λ s, default ∅ (secretCache s !! "global")) in
      ret (strip <$> globalSecrets)
  | Lworld =>
      if truthy (ctx_worldId context) then
        let! worldSecrets :=
          gets (λ s, default ∅
                  (secretCache s !! cacheKey (or_str (ctx_worldId context) ""))) in
        ret (strip <$> worldSecrets)
      else throw "World ID required"
  | Luser =>
      if truthy (ctx_userId context) then
        let! comps := gets (getComponents (or_str (ctx_userId context) "")) in
        λ s, (s, listComponents comps ∅)
      else throw "User ID required"
  end.

(** *** Sharing *)

Definition getSecretConfig (key : string) (context : SecretContext)
    : M (option SecretConfig) :=
  let! metadata := listSecrets context in
  ret (metadata !! key).

Definition updateSecretConfig (key : string) (context : SecretContext)
    (config : SecretConfig) : M bool :=
  let! currentValue := get key context in
  match currentValue with
  | None => ret false
  | Some v => set key v context (Some (as_partial config))
  end.

(** The record returned by [list] is a shallow copy: its [permissions]
    and [sharedWith] arrays are the arrays of the cached record, so the
    [push] calls of [grantAccess] also extend the cached arrays, when
    these exist.  Components come from the runtime as fresh copies. *)
Definition pushShared (key : string) (context : SecretContext)
    (newPermission : SecretPermission) (grantee : string) : M unit :=
  let pushed (c : SecretConfig) : SecretConfig :=
    with_sharing c
      ((λ ps, ps ++ [newPermission]) <$> cfg_permissions c)
      ((λ ids, if bool_decide (grantee ∈ ids) then ids else ids ++ [grantee])
         <$> cfg_sharedWith c) in
  match ctx_level context with
  | Lglobal => modify (set_secretCache (alter (alter pushed key) "global"))
  | Lworld =>
      modify (set_secretCache
                (alter (alter pushed key) (cacheKey (or_str (ctx_worldId context) ""))))
  | Luser => ret ()
  end.

Definition grantAccess (key : string) (context : SecretContext) (grantee : string)
    (permissions : list string) : M bool :=
  let! allowed := gets (checkPermission key Ashare context) in
  if negb allowed then ret false
  else
    let! config := getSecretConfig key context in
    match config with
    | None => ret false
    | Some config =>
        let! now := gets clock in
        let! agent := gets agentId in
        let newPermission :=
          mkPermission grantee permissions
            (or_str (ctx_requesterId context) (or_str (ctx_userId context) agent))
            now None in
        let permissions' := default [] (cfg_permissions config) ++ [newPermission] in
        let sharedWith := default [] (cfg_sharedWith config) in
        let sharedWith' :=
          if bool_decide (grantee ∈ sharedWith) then sharedWith
          else sharedWith ++ [grantee] in
        pushShared key context newPermission grantee;;
        updateSecretConfig key context
          (with_sharing config (Some permissions') (Some sharedWith'))
    end.

Definition revokeAccess (key : string) (context : SecretContext) (grantee : string)
    : M bool :=
  let! allowed := gets (checkPermission key Ashare context) in
  if negb allowed then ret false
  else
    let! config := getSecretConfig key context in
    match config with
    | None => ret false
    | Some config =>
        let permissions' :=
          filter (λ p, perm_entityId p ≠ grantee) (default [] (cfg_permissions config)) in
        let sharedWith' :=
          filter (λ id, id ≠ grantee) (default [] (cfg_sharedWith config)) in
        updateSecretConfig key context
          (with_sharing config (Some permissions') (Some sharedWith'))
    end.

Definition checkAccess (key : string) (context : SecretContext)
    (actionId entityId : option string) (permission : string) : M bool :=
  let! config := getSecretConfig key context in
  match config ≫= cfg_permissions with
  | None => ret false
  | Some permissions =>
      let entity := if truthy entityId then entityId else actionId in
      if truthy entity then
        match find_first (λ p, bool_decide (Some (perm_entityId p) = entity))
                permissions with
        | None => ret false
        | Some entityPermission =>
            ret (bool_decide (permission ∈ perm_permissions entityPermission))
        end
      else ret false
  end.

(** [stop()]. *)
Definition stop : M unit :=
  modify (set_secretCache (λ _, ∅));;
  modify (set_accessLogs (λ _, [])).

End Manager.

(** * Form sessions ([types/form.ts], [secret-form-service.ts]) *)

(** Modelled from the spec: [types/form.ts] is not among the sources.
    The status of a session, and below the records of a form, with the
    fields the specification lists and the service reads. *)
Inductive SessionStatus := active | completed | expired.

Global Instance SessionStatus_eq_dec : EqDecision SessionStatus.
Proof. solve_decision. Defined.

(** A validation rule: [{ type, value, message, validator }].  A
    [pattern] rule carries the [test] of its regular expression. *)
Inductive RuleKind :=
  | Rrequired
  | RminLength (value : nat)
  | RmaxLength (value : nat)
  | Rpattern (test : string → bool)
  | Rcustom (validator : option (string → bool)).

Record ValidationRule := mkRule {
  rule_kind : RuleKind;
  rule_message : string;
}.

(** Modelled from the spec: [FormField] of [types/form.ts]. *)
Record FormField := mkField {
  field_name : string;
  field_label : string;
  field_type : string;
  field_required : bool;
  field_sensitive : bool;
  field_validation : option (list ValidationRule);
}.

(** [Partial<FormField>]. *)
Record PartialField := mkPartialField {
  pf_name : option string;
  pf_label : option string;
  pf_type : option string;
  pf_required : option bool;
  pf_sensitive : option bool;
  pf_validation : option (list ValidationRule);
}.

(** Modelled from the spec: [FormSchema] of [types/form.ts]. *)
Record FormSchema := mkSchema {
  schema_id : string;
  schema_title : string;
  schema_description : string;
  schema_fields : list FormField;
  schema_submitLabel : string;
  schema_mode : string;
  schema_expiresAt : N;
  schema_maxSubmissions : option nat;
  schema_successMessage : string;
}.

(** Modelled from the spec: an element of [SecretFormRequest.secrets]. *)
Record SecretRequest := mkSecretRequest {
  sr_key : string;
  sr_config : PartialConfig;
  sr_field : option PartialField;
}.

(** Modelled from the spec: [SecretFormRequest] of [types/form.ts]. *)
Record SecretFormRequest := mkRequest {
  req_secrets : list SecretRequest;
  req_title : option string;
  req_description : option string;
  req_mode : option string;
  req_expiresIn : option N;
  req_maxSubmissions : option nat;
}.

(** The JSON body of a submission: secret name to string. *)
Abbreviation FormData := (gmap string string).

(** Modelled from the spec: [FormSubmission] of [types/form.ts]. *)
Record FormSubmission := mkSubmission {
  sub_formId : string;
  sub_sessionId : string;
  sub_data : FormData;
  sub_submittedAt : N;
  sub_ipAddress : option string;
  sub_userAgent : option string;
}.

(** Modelled from the spec: [FormSession] of [types/form.ts]. *)
Record FormSession := mkSession {
  session_id : string;
  session_formId : string;
  session_tunnelId : string;
  session_port : N;
  session_url : string;
  session_schema : FormSchema;
  session_request : SecretFormRequest;
  session_createdAt : N;
  session_expiresAt : N;
  session_submissions : list FormSubmission;
  session_status : SessionStatus;
  session_callback : option (FormSubmission → result unit);
}.

(** [session.submissions.push(s)] and [session.status = st]. *)
Definition with_progress (session : FormSession) (subs : list FormSubmission)
    (st : SessionStatus) : FormSession :=
  mkSession (session_id session) (session_formId session)
    (session_tunnelId session) (session_port session) (session_url session)
    (session_schema session) (session_request session)
    (session_createdAt session) (session_expiresAt session) subs st
    (session_callback session).

Record Tunnel := mkTunnel {
  tunnel_id : string;
  tunnel_url : string;
  tunnel_port : N;
  tunnel_createdAt : N;
  tunnel_expiresAt : N;
  tunnel_purpose : string;
}.

(** What a route answers. *)
Inductive Response :=
  | FormPage (session : FormSession)
  | Gone
  | ValidationErrors (errors : gmap string string)
  | Success (message : string)
  | ServerError
  | StatusReport (status : SessionStatus) (submissionsCount : nat)
      (maxSubmissions : option nat) (expiresAt : N).

(** [n || d] on numbers: a count, or a time in milliseconds. *)
Definition or_num (o : option nat) (d : nat) : nat :=
  match o with
  | Some 0 | None => d
  | Some n => n
  end.

Definition or_ms (o : option N) (d : N) : N :=
  match o with
  | Some 0%N | None => d
  | Some n => n
  end.

(** The secret store the form service writes to, seen through the one
    method it calls. *)
Class SecretStore := {
  Store : Type;
  store_set : string → string → SecretContext → option PartialConfig →
              Store → Store * result bool;
}.

(** Collaborators of the form service outside the sources: [nanoid],
    the ngrok client and the [FormFieldPresets] table of
    [types/form.ts]. *)
Class FormHost := {
  nanoid : nat → string;
  ngrok_connect : N → result string;
  ngrok_disconnect : string → bool;
  FormFieldPresets : string → option PartialField;
}.

(** [EnhancedSecretManager] as the store of the form service. *)
Global Instance manager_store `{host : Host} : SecretStore := {
  Store := State;
  store_set key value context config := set key (VString value) context config;
}.

(** ** Escaping ([escapeHtml]) *)

(** [s.replace(/c/g, replacement)] for a single character [c]. *)
Fixpoint replaceAll (c : ascii) (replacement : string) (s : string) : string :=
  match s with
  | EmptyString => EmptyString
  | String a s' =>
      if Ascii.eqb a c then replacement +:+ replaceAll c replacement s'
      else String a (replaceAll c replacement s')
  end.

(** The double quote. *)
Definition quote : ascii := ascii_of_nat 34.

Definition escapeHtml (unsafe : string) : string :=
  replaceAll "'" "&#039;"
    (replaceAll quote "&quot;"
       (replaceAll ">" "&gt;"
          (replaceAll "<" "&lt;"
             (replaceAll "&" "&amp;" unsafe)))).


(** ** Labels *)

Definition isWordChar (a : ascii) : bool :=
  let n := nat_of_ascii a in
  ((48 <=? n) && (n <=? 57))%nat
  || ((65 <=? n) && (n <=? 90))%nat
  || ((97 <=? n) && (n <=? 122))%nat
  || (n =? 95)%nat.

Definition toUpperCase (a : ascii) : ascii :=
  let n := nat_of_ascii a in
  if ((97 <=? n) && (n <=? 122))%nat
  then ascii_of_nat (n - 32) else a.

(** [s.replace(/_/g, ' ')]. *)
Fixpoint spaced (s : string) : string :=
  match s with
  | EmptyString => EmptyString
  | String a s' =>
      String (if (nat_of_ascii a =? 95)%nat then " "%char else a) (spaced s')
  end.

(** [s.replace(/\b\w/g, (l) => l.toUpperCase())]; [inWord] tells
    whether the previous character was a word character. *)
Fixpoint capitalised (inWord : bool) (s : string) : string :=
  match s with
  | EmptyString => EmptyString
  | String a s' =>
      String (if isWordChar a && negb inWord then toUpperCase a else a)
        (capitalised (isWordChar a) s')
  end.

Definition defaultLabel (key : string) : string := capitalised false (spaced key).

Section Forms.
Context `{secretStore : SecretStore} `{formHost : FormHost}.

(** The fields of [SecretFormService] and of the [NgrokService] it
    holds.  Session objects live in [heap]; the [sessions] map and the
    routes of a form refer to the same object by its position there.
    Only the keys of the [servers] map matter. *)
Record FormState := mkForms {
  store : Store;
  heap : list FormSession;
  sessions : gmap string nat;
  servers : gset N;
  nextPort : N;
  tunnels : gmap string Tunnel;
  now : N;
  issued : nat;
}.

Definition set_store (x : Store) (s : FormState) : FormState :=
  mkForms x (heap s) (sessions s) (servers s) (nextPort s) (tunnels s) (now s) (issued s).
Definition set_heap (x : list FormSession) (s : FormState) : FormState :=
  mkForms (store s) x (sessions s) (servers s) (nextPort s) (tunnels s) (now s) (issued s).
Definition set_sessions (x : gmap string nat) (s : FormState) : FormState :=
  mkForms (store s) (heap s) x (servers s) (nextPort s) (tunnels s) (now s) (issued s).
Definition set_servers (x : gset N) (s : FormState) : FormState :=
  mkForms (store s) (heap s) (sessions s) x (nextPort s) (tunnels s) (now s) (issued s).
Definition set_nextPort (x : N) (s : FormState) : FormState :=
  mkForms (store s) (heap s) (sessions s) (servers s) x (tunnels s) (now s) (issued s).
Definition set_tunnels (x : gmap string Tunnel) (s : FormState) : FormState :=
  mkForms (store s) (heap s) (sessions s) (servers s) (nextPort s) x (now s) (issued s).
Definition set_issued (x : nat) (s : FormState) : FormState :=
  mkForms (store s) (heap s) (sessions s) (servers s) (nextPort s) (tunnels s) (now s) x.

(** ** NgrokService *)

Definition DEFAULT_TUNNEL_DURATION : N := 30 * 60 * 1000.

Definition createTunnel (port : N) (purpose : string) (duration : option N)
    (s : FormState) : FormState * result (string * string) :=
  match ngrok_connect port with
  | Throw message => (s, Throw ("Failed to create tunnel: " +:+ message))
  | Ok url =>
      let tunnelId := nanoid (issued s) in
      let tunnelDuration := or_ms duration DEFAULT_TUNNEL_DURATION in
      let tunnel := mkTunnel tunnelId url port (now s) (now s + tunnelDuration)%N purpose in
      (set_tunnels (<[tunnelId := tunnel]> (tunnels s)) (set_issued (S (issued s)) s),
       Ok (tunnelId, url))
  end.

Definition closeTunnel (tunnelId : string) (s : FormState) : FormState :=
  match tunnels s !! tunnelId with
  | None => s
  | Some tunnel =>
      if ngrok_disconnect (tunnel_url tunnel)
      then set_tunnels (delete tunnelId (tunnels s)) s
      else s
  end.

(** ** Building a form *)

Definition createFormField (key : string) (config : PartialConfig)
    (fieldOverrides : option PartialField) : FormField :=
  let none := mkPartialField None None None None None None in
  let preset := default none (FormFieldPresets (or_str (p_type config) "text")) in
  let overrides := default none fieldOverrides in
  let fieldType :=
    if bool_decide (p_type config = Some "credential") then "password"
    else if bool_decide (p_type config = Some "config") then "json"
    else if bool_decide (p_type config = Some "url") then "url"
    else "password" in
  let pick {A : Type} (f : PartialField → option A) (base : A) : A :=
    match f overrides with
    | Some x => x
    | None => nullish (f preset) base
    end in
  mkField
    (pick pf_name key)
    (pick pf_label (or_str (p_description config) (defaultLabel key)))
    (pick pf_type fieldType)
    (pick pf_required (nullish (p_required config) true))
    (pick pf_sensitive true)
    (match pf_validation overrides with
     | Some v => Some v
     | None => pf_validation preset
     end).

Definition generateFormSchema (request : SecretFormRequest) (s : FormState)
    : FormState * FormSchema :=
  let fields :=
    (λ secret, createFormField (sr_key secret) (sr_config secret) (sr_field secret))
      <$> req_secrets request in
  (set_issued (S (issued s)) s,
   mkSchema (nanoid (issued s))
     (or_str (req_title request) "Secure Information Request")
     (or_str (req_description request)
        "Please provide the following information securely.")
     fields "Submit Securely" (or_str (req_mode request) "requester")
     (now s + or_ms (req_expiresIn request) (30 * 60 * 1000))%N
     (Some (or_num (req_maxSubmissions request) 1))
     "Thank you! Your information has been securely received.").

(** [while (this.servers.has(port)) port++], bounded by the number of
    bound ports. *)
Fixpoint skipBound (fuel : nat) (port : N) (bound : gset N) : N :=
  match fuel with
  | O => port
  | S fuel' =>
      if bool_decide (port ∈ bound) then skipBound fuel' (N.succ port) bound else port
  end.

Definition getAvailablePort (s : FormState) : FormState * N :=
  let port := skipBound (size (servers s)) (nextPort s) (servers s) in
  (set_nextPort (N.succ port) s, port).

Definition createSecretForm (request : SecretFormRequest)
    (callback : option (FormSubmission → result unit)) (s : FormState)
    : FormState * result (string * string) :=
  let '(s1, schema) := generateFormSchema request s in
  let '(s2, port) := getAvailablePort s1 in
  match createTunnel port ("secret-form-" +:+ schema_id schema) (req_expiresIn request) s2 with
  | (s3, Throw message) => (s3, Throw message)
  | (s3, Ok (tunnelId, url)) =>
      let session :=
        mkSession (nanoid (issued s3)) (schema_id schema) tunnelId port url schema
          request (now s3) (schema_expiresAt schema) [] active callback in
      let s4 := set_issued (S (issued s3)) s3 in
      let s5 := set_sessions (<[session_id session := length (heap s4)]> (sessions s4))
                  (set_heap (heap s4 ++ [session]) s4) in
      let s6 := set_servers ({[port]} ∪ servers s5) s5 in
      (s6, Ok (url +:+ "/form/" +:+ session_id session, session_id session))
  end.

(** ** Validation *)

(** The [switch] over [rule.type], for a truthy [value]. *)
Definition ruleHolds (rule : ValidationRule) (value : string) : bool :=
  match rule_kind rule with
  | Rrequired => negb (bool_decide (value = ""))
  | RminLength n => bool_decide (n ≤ String.length value)%nat
  | RmaxLength n => bool_decide (String.length value ≤ n)%nat
  | Rpattern test => test value
  | Rcustom validator =>
      match validator with Some f => f value | None => true end
  end.

(** The inner loop: the message of the first rule that fails. *)
Fixpoint firstFailing (rules : list ValidationRule) (value : string) : option string :=
  match rules with
  | [] => None
  | rule :: rest =>
      if ruleHolds rule value then firstFailing rest value
      else Some (rule_message rule)
  end.

(** One turn of the outer loop: the error recorded for [field], if any. *)
Definition fieldError (field : FormField) (data : FormData) : option string :=
  let value := data !! field_name field in
  if field_required field && negb (truthy value)
  then Some (field_label field +:+ " is required")
  else
    match field_validation field with
    | Some rules => if truthy value then firstFailing rules (or_str value "") else None
    | None => None
    end.

Fixpoint collectErrors (fields : list FormField) (data : FormData)
    (errors : gmap string string) : gmap string string :=
  match fields with
  | [] => errors
  | field :: rest =>
      collectErrors rest data
        match fieldError field data with
        | Some message => <[field_name field := message]> errors
        | None => errors
        end
  end.

(** [validateSubmission]: the [valid] flag and the [errors] map. *)
Definition validateSubmission (schema : FormSchema) (data : FormData)
    : bool * option (gmap string string) :=
  let errors := collectErrors (schema_fields schema) data ∅ in
  (bool_decide (size errors = 0),
   if bool_decide (0 < size errors) then Some errors else None).

(** ** Persisting a submission *)

Fixpoint storeSecrets (secrets : list SecretRequest) (data : FormData)
    (context : SecretContext) (st : Store) : Store * result unit :=
  match secrets with
  | [] => (st, Ok ())
  | secret :: rest =>
      let value := data !! sr_key secret in
      if truthy value then
        match store_set (sr_key secret) (or_str value "") context
                (Some (sr_config secret)) st with
        | (st', Ok _) => storeSecrets rest data context st'
        | (st', Throw message) => (st', Throw message)
        end
      else storeSecrets rest data context st
  end.

Definition storeSubmittedSecrets (session : FormSession) (submission : FormSubmission)
    (context : SecretContext) (s : FormState) : FormState * result unit :=
  let '(st, r) := storeSecrets (req_secrets (session_request session))
                    (sub_data submission) context (store s) in
  (set_store st s, r).

(** ** Sessions *)

(** The session object the [sessions] map holds for [sessionId]. *)
Definition getSession (sessionId : string) (s : FormState) : option FormSession :=
  sessions s !! sessionId ≫= (λ r, heap s !! r).

Definition closeSession (sessionId : string) (s : FormState) : FormState :=
  match getSession sessionId s with
  | None => s
  | Some session =>
      let s1 := closeTunnel (session_tunnelId session) s in
      let s2 := if bool_decide (session_port session ∈ servers s1)
                then set_servers (servers s1 ∖ {[session_port session]}) s1
                else s1 in
      set_sessions (delete sessionId (sessions s2)) s2
  end.

Definition cleanupExpiredSessions (s : FormState) : FormState :=
  let expiredSessions :=
    omap (λ '(id, r),
            match heap s !! r with
            | Some session =>
                if bool_decide (session_expiresAt session ≤ now s)%N
                   || bool_decide (session_status session = completed)
                then Some id else None
            | None => None
            end)
         (map_to_list (sessions s)) in
  foldl (λ acc id, closeSession id acc) s expiredSessions.

(** [stop()] of the form service. *)
Definition stopForms (s : FormState) : FormState :=
  foldl (λ acc id, closeSession id acc) s (fst <$> map_to_list (sessions s)).

(** ** Routes of a form

    [setupFormRoutes(app, session, context)] closes over the session
    object; [r] is its position in [heap].  A request for an object
    that was never created finds no route. *)
Inductive Request :=
  | GetForm
  | PostSubmit (body : FormData) (ip userAgent : option string)
  | GetStatus.

Definition formRoute (r : nat) (s : FormState) : FormState * option Response :=
  match heap s !! r with
  | None => (s, None)
  | Some session =>
      if bool_decide (session_status session ≠ active) then (s, Some Gone)
      else (s, Some (FormPage session))
  end.

Definition submitRoute (r : nat) (context : SecretContext) (body : FormData)
    (ip userAgent : option string) (s : FormState) : FormState * option Response :=
  match heap s !! r with
  | None => (s, None)
  | Some session =>
      if bool_decide (session_status session ≠ active) then (s, Some Gone)
      else
        let validation := validateSubmission (session_schema session) body in
        if negb (fst validation)
        then (s, Some (ValidationErrors (default ∅ (snd validation))))
        else
          let submission :=
            mkSubmission (session_formId session) (session_id session) body (now s)
              ip userAgent in
          let pushed := session_submissions session ++ [submission] in
          let session1 := with_progress session pushed (session_status session) in
          let s1 := set_heap (<[r := session1]> (heap s)) s in
          match storeSubmittedSecrets session1 submission context s1 with
          | (s2, Throw _) => (s2, Some ServerError)
          | (s2, Ok _) =>
              let s3 :=
                if bool_decide
                     (or_num (schema_maxSubmissions (session_schema session1)) 1
                      ≤ length pushed)%nat
                then closeSession (session_id session1)
                       (set_heap (<[r := with_progress session1 pushed completed]> (heap s2)) s2)
                else s2 in
              match session_callback session1 with
              | Some callback =>
                  match callback submission with
                  | Ok _ => (s3, Some (Success (schema_successMessage (session_schema session1))))
                  | Throw _ => (s3, Some ServerError)
                  end
              | None => (s3, Some (Success (schema_successMessage (session_schema session1))))
              end
          end
  end.

Definition statusRoute (r : nat) (s : FormState) : FormState * option Response :=
  match heap s !! r with
  | None => (s, None)
  | Some session =>
      (s, Some (StatusReport (session_status session)
                  (length (session_submissions session))
                  (schema_maxSubmissions (session_schema session))
                  (session_expiresAt session)))
  end.

Definition handle (r : nat) (context : SecretContext) (request : Request)
    (s : FormState) : FormState * option Response :=
  match request with
  | GetForm => formRoute r s
  | PostSubmit body ip userAgent => submitRoute r context body ip userAgent s
  | GetStatus => statusRoute r s
  end.

(** ** Everything that can happen to the service *)

Inductive Event :=
  | Create (request : SecretFormRequest) (callback : option (FormSubmission → result unit))
  | Incoming (r : nat) (context : SecretContext) (request : Request)
  | Close (sessionId : string)
  | Sweep
  | Stop
  | TunnelTimeout (tunnelId : string)
  | Elapse (ms : N).

Definition step (e : Event) (s : FormState) : FormState :=
  match e with
  | Create request callback => fst (createSecretForm request callback s)
  | Incoming r context request => fst (handle r context request s)
  | Close sessionId => closeSession sessionId s
  | Sweep => cleanupExpiredSessions s
  | Stop => stopForms s
  | TunnelTimeout tunnelId => closeTunnel tunnelId s
  | Elapse ms =>
      mkForms (store s) (heap s) (sessions s) (servers s) (nextPort s) (tunnels s)
        (now s + ms)%N (issued s)
  end.

Definition run (events : list Event) (s : FormState) : FormState :=
  foldl (λ acc e, step e acc) s events.

(** ** The rest of [NgrokService] *)

Definition getTunnel (tunnelId : string) (s : FormState) : option Tunnel :=
  tunnels s !! tunnelId.

Definition isTunnelActive (tunnelId : string) (s : FormState) : bool :=
  match tunnels s !! tunnelId with
  | None => false
  | Some tunnel => bool_decide (now s < tunnel_expiresAt tunnel)%N
  end.

(** [tunnel.expiresAt += additionalTime]. *)
Definition extendTunnel (tunnelId : string) (additionalTime : N) (s : FormState)
    : FormState * bool :=
  match tunnels s !! tunnelId with
  | None => (s, false)
  | Some tunnel =>
      let extended :=
        mkTunnel (tunnel_id tunnel) (tunnel_url tunnel) (tunnel_port tunnel)
          (tunnel_createdAt tunnel) (tunnel_expiresAt tunnel + additionalTime)%N
          (tunnel_purpose tunnel) in
      (set_tunnels (<[tunnelId := extended]> (tunnels s)) s, true)
  end.

Definition cleanupExpiredTunnels (s : FormState) : FormState :=
  let expiredTunnels :=
    omap (λ '(id, tunnel),
            if bool_decide (tunnel_expiresAt tunnel ≤ now s)%N then Some id else None)
         (map_to_list (tunnels s)) in
  foldl (λ acc id, closeTunnel id acc) s expiredTunnels.

(** [stop()] of the tunnel service. *)
Definition stopTunnels (s : FormState) : FormState :=
  foldl (λ acc id, closeTunnel id acc) s (fst <$> map_to_list (tunnels s)).


End Forms.

(** * Stand-ins for the collaborators, for concrete scenarios *)

(** A host with no environment variables, a validator that accepts
    everything and a cipher that tags the ciphertext with a
    recomputable label. *)
Definition scenarioHost : Host := {|
  Env := unit;
  getEnvVar := λ _ _, None;
  updateEnvVar := λ e _ _ _, Ok e;
  validateEnvVar := λ _ _ _ _, mkValidation true None;
  createUniqueUuid := λ agent seed, agent +:+ "/" +:+ seed;
  randomBytes := λ n, "iv" +:+ pretty n;
  gcm_seal := λ key iv plaintext,
    ("#" +:+ plaintext, "tag:" +:+ key +:+ ":" +:+ iv +:+ ":" +:+ plaintext);
  gcm_open := λ key iv tag ciphertext,
    let plaintext := substring_from 1 ciphertext in
    if bool_decide (tag = Some ("tag:" +:+ key +:+ ":" +:+ iv +:+ ":" +:+ plaintext))
    then Some plaintext else None;
|}.

(** A store that only records the calls it receives, and throws on
    the keys [failing] selects. *)
Definition recordingStore (failing : string → bool) : SecretStore := {|
  Store := list (string * string);
  store_set := λ key value _ _ calls,
    (calls ++ [(key, value)],
     if failing key then Throw "backing store unavailable" else Ok true);
|}.

(** A form host whose tunnels always open and close. *)
Definition scenarioFormHost : FormHost := {|
  nanoid := λ n, "id" +:+ pretty n;
  ngrok_connect := λ port, Ok ("https://tunnel.example/" +:+ pretty port);
  ngrok_disconnect := λ _, true;
  FormFieldPresets := λ _, None;
|}.

(** ** Scenario data *)

Section ScenarioData.
#[local] Existing Instance scenarioHost.

(** A freshly started manager of agent [agent-123]. *)
Definition freshManager : State :=
  mkState "agent-123" "k" ∅ [] ∅ [] () 5%N 0.

Definition userContext : SecretContext :=
  mkContext Luser None (Some "user-123") "agent-123" (Some "user-123").

(** Somebody else asking for the secrets of [user-123]. *)
Definition intruderContext : SecretContext :=
  mkContext Luser None (Some "user-123") "agent-123" (Some "user-456").


(** A payload of [user-123] whose tag was overwritten. *)
Definition tamperedPayload : EncryptedSecret :=
  mkEncrypted "#sk-test-123" "iv0" (Some "AAAA") "aes-256-gcm" "default".

Definition tamperedManager : State :=
  mkState "agent-123" "k" ∅ [] ∅
    [mkComponent "agent-123/user-123-API_KEY" "user-123" "secret"
       (Some (mkData "API_KEY" (Some (VEncrypted tamperedPayload))
                (Some (fullConfigOf "API_KEY" (VString "sk-test-123") userContext
                         None 5%N))
                false 5%N))]
    () 6%N 1.

(** A manager whose runtime knows the world [world-1] and its owner. *)
Definition worldManager : State :=
  mkState "agent-123" "k" ∅ []
    {["world-1" := mkWorld (Some (mkMetadata (Some {["owner-1" := OWNER]}) None))]}
    [] () 5%N 0.

(** A requester with no role in [world-1]. *)
Definition strangerContext : SecretContext :=
  mkContext Lworld (Some "world-1") None "agent-123" (Some "stranger").


(** A manager whose log is full: one old entry and 999 later ones. *)
Definition oldestEntry : SecretAccessLog :=
  mkLog "FIRST_KEY" "user-123" Awrite 1%N userContext true None.

Definition laterEntry : SecretAccessLog :=
  mkLog "API_KEY" "user-123" Aread 2%N userContext true None.

Definition fullManager : State :=
  mkState "agent-123" "k" ∅ (oldestEntry :: replicate 999 laterEntry) ∅ [] () 5%N 0.

(** A store that records its calls and never fails, and one that
    fails on [API_KEY]. *)
Definition recorder : SecretStore := recordingStore (λ _, false).

Definition failingRecorder : SecretStore :=
  recordingStore (λ key, bool_decide (key = "API_KEY")).

Definition startedForms (secretStore : SecretStore) (st : @Store secretStore)
    : @FormState secretStore :=
  @mkForms secretStore st [] ∅ ∅ 10000%N ∅ 1000%N 0.

(** One required secret, one submission allowed. *)
Definition apiKeyRequest : SecretFormRequest :=
  mkRequest
    [mkSecretRequest "API_KEY"
       (mkPartial (Some "api_key") None (Some true) None None None None) None]
    None None None (Some 300000%N) None.

(** A required secret followed by an optional one. *)
Definition twoSecretsRequest : SecretFormRequest :=
  mkRequest
    [mkSecretRequest "API_KEY"
       (mkPartial (Some "api_key") None (Some true) None None None None) None;
     mkSecretRequest "WEBHOOK_URL"
       (mkPartial (Some "url") None (Some false) None None None None) None]
    None None None None None.

(** The service after [createSecretForm]; the session is object 0. *)
Definition withForm (secretStore : SecretStore) (st : @Store secretStore)
    (request : SecretFormRequest) : @FormState secretStore :=
  fst (@createSecretForm secretStore scenarioFormHost request None
         (startedForms secretStore st)).

Definition sessionOf (secretStore : SecretStore) (s : @FormState secretStore)
    : FormSession :=
  default (mkSession "" "" "" 0%N "" (mkSchema "" "" "" [] "" "" 0%N None "")
             (mkRequest [] None None None None None) 0%N 0%N [] expired None)
    (@heap secretStore s !! 0).

(** The form for one API key, before and after its one submission. *)
Definition apiKeyForm : @FormState recorder := withForm recorder [] apiKeyRequest.


(** The form for a required and an optional secret. *)
Definition twoSecretsForm : @FormState recorder :=
  withForm recorder [] twoSecretsRequest.

(** Two submissions allowed, on a store that fails on the API key. *)
Definition retryRequest : SecretFormRequest :=
  mkRequest
    [mkSecretRequest "API_KEY"
       (mkPartial (Some "api_key") None (Some false) None None None None) None;
     mkSecretRequest "WEBHOOK_URL"
       (mkPartial (Some "url") None (Some false) None None None None) None]
    None None None None (Some 2).

Definition retryForm : @FormState failingRecorder :=
  withForm failingRecorder [] retryRequest.

Definition retryFailed : @FormState failingRecorder :=
  fst (@submitRoute failingRecorder scenarioFormHost 0 userContext
         {["API_KEY" := "sk-test-123"]} None None retryForm).

Definition retryDone : @FormState failingRecorder :=
  fst (@submitRoute failingRecorder scenarioFormHost 0 userContext
         {["WEBHOOK_URL" := "https://example.org/hook"]} None None retryFailed).

Definition managedForm : @FormState (@manager_store scenarioHost) :=
  withForm (@manager_store scenarioHost) freshManager apiKeyRequest.

Definition managedSubmitted : @FormState (@manager_store scenarioHost) :=
  fst (@submitRoute (@manager_store scenarioHost) scenarioFormHost 0 userContext
         {["API_KEY" := "sk-test-123"]} None None managedForm).

(** The agent itself, at global level, and the owner of [world-1]. *)
Definition agentContext : SecretContext :=
  mkContext Lglobal None None "agent-123" (Some "agent-123").

Definition ownerContext : SecretContext :=
  mkContext Lworld (Some "world-1") None "agent-123" (Some "owner-1").

(** The same owner asking in a world the runtime does not know. *)
Definition otherWorldContext : SecretContext :=
  mkContext Lworld (Some "world-2") None "agent-123" (Some "owner-1").

(** Managers holding one secret: at world level, at global level, and
    at global level once [user-456] was granted read access. *)
Definition ownedSecret : State :=
  fst (set "API_KEY" (VString "sk-test-123") ownerContext None worldManager).

Definition globalSecret : State :=
  fst (set "API_KEY" (VString "sk-test-123") agentContext None freshManager).

Definition sharedSecret : State :=
  fst (grantAccess "API_KEY" agentContext "user-456" ["read"] globalSecret).

(** The form for one API key, six minutes after it was created: its
    five minutes have passed. *)
Definition lateForm : @FormState recorder :=
  @step recorder scenarioFormHost (Elapse 360000%N) apiKeyForm.

(** A tunnel asked for with a duration of zero. *)
Definition zeroTunnel : @FormState recorder :=
  fst (@createTunnel recorder scenarioFormHost 10000%N "secret-form" (Some 0%N)
         (startedForms recorder [])).


(** The form for one API key, with a callback that throws. *)
Definition notifyingForm : @FormState recorder :=
  fst (@createSecretForm recorder scenarioFormHost apiKeyRequest
         (Some (λ _, Throw "notification failed")) (startedForms recorder [])).

(** Two submissions allowed, on the store that never fails. *)
Definition twoTriesForm : @FormState recorder := withForm recorder [] retryRequest.


End ScenarioData.

(** * Vocabulary of the properties *)

Section ManagerVocabulary.
Context `{host : Host}.

(** [pushes n l l']: [l'] is [l] after [n] calls of [logAccess]. *)
Inductive pushes : nat → list SecretAccessLog → list SecretAccessLog → Prop :=
  | pushes_none l : pushes 0 l l
  | pushes_more n l l' e : pushes n l l' → pushes (S n) l (pushLog e l').

(** The stored secrets: everything but the log and the draw counter. *)
Definition sameSecrets (s s' : State) : Prop :=
  secretCache s' = secretCache s ∧ worlds s' = worlds s
  ∧ components s' = components s ∧ env s' = env s.

(** The entries [get] and [set] write. *)
Definition attempt (key : string) (action : Action) (context : SecretContext)
    (s : State) : SecretAccessLog :=
  logEntry key action context true None s.

Definition failure (key : string) (action : Action) (context : SecretContext)
    (message : string) (s : State) : SecretAccessLog :=
  logEntry key action context false (Some message) s.

(** What writing a secret never touches. *)
Definition logsKept (s s' : State) : Prop :=
  accessLogs s' = accessLogs s ∧ agentId s' = agentId s
  ∧ encryptionKey s' = encryptionKey s ∧ clock s' = clock s.

(** The value [finalValueOf] yields: the sealed value when the record is
    marked encrypted, the value itself otherwise. *)
Definition storedAs (value : Value) (config : SecretConfig) (key : string)
    (finalValue : Value) : Prop :=
  if nullish (cfg_encrypted config) false then
    ∃ plaintext iv,
      value = VString plaintext
      ∧ finalValue =
          VEncrypted (mkEncrypted (gcm_seal key iv plaintext).1 iv
                        (Some (gcm_seal key iv plaintext).2) "aes-256-gcm" "default")
  else finalValue = value.

(** Searching the rows of one entity for the secret [key]. *)
Definition isRowOf (userId key : string) (c : Component) : bool :=
  bool_decide (comp_entityId c = userId) && isSecretFor key c.


(** No record for [key] where [get] looks it up. *)
Definition absentAt (key : string) (context : SecretContext) (s : State) : Prop :=
  match ctx_level context with
  | Lglobal =>
      truthy (getEnvVar (env s) key) = false
      ∧ secretCache s !! "global" ≫= (λ g, g !! key) = None
  | Lworld =>
      ∃ worldId,
        ctx_worldId context = Some worldId ∧ worldId ≠ ""
        ∧ secretCache s !! cacheKey worldId ≫= (λ ws, ws !! key) = None
        ∧ ((getWorld worldId s ≫= world_metadata) ≫= meta_secrets)
            ≫= (λ ss, ss !! key) = None
  | Luser =>
      ∃ userId,
        ctx_userId context = Some userId ∧ userId ≠ ""
        ∧ find_first (isSecretFor key) (getComponents userId s) = None
  end.

(** The record [get] finds for [key] is marked encrypted and holds the
    payload [e]. *)
Definition sealedAt (key : string) (context : SecretContext) (s : State)
    (e : EncryptedSecret) : Prop :=
  match ctx_level context with
  | Lglobal => False
  | Lworld =>
      ∃ worldId worldSecrets config,
        ctx_worldId context = Some worldId ∧ worldId ≠ ""
        ∧ secretCache s !! cacheKey worldId = Some worldSecrets
        ∧ worldSecrets !! key = Some config
        ∧ cfg_encrypted config = Some true
        ∧ cfg_value config = Some (VEncrypted e)
  | Luser =>
      ∃ userId row data metadata,
        ctx_userId context = Some userId ∧ userId ≠ ""
        ∧ find_first (isSecretFor key) (getComponents userId s) = Some row
        ∧ comp_data row = Some data
        ∧ data_value data = Some (VEncrypted e)
        ∧ data_metadata data = Some metadata
        ∧ cfg_encrypted metadata = Some true
        ∧ enc_algorithm e ≠ ""
  end.

(** The tag of [e] does not verify under the key of the service. *)
Definition tagRejected (e : EncryptedSecret) (s : State) : Prop :=
  gcm_open (encryptionKey s) (enc_iv e)
    (if truthy (enc_authTag e) then enc_authTag e else None) (enc_value e) = None.

Definition authenticationError : string :=
  "Unsupported state or unable to authenticate data".

(** The roles the runtime holds for a world, if the world exists. *)
Definition rolesOf (s : State) (worldId : string)
    : option (option (gmap string Role)) :=
  (λ world, world_metadata world ≫= meta_roles) <$> worlds s !! worldId.

(** The record [get] starts from: the cached record at global and
    world level, the metadata of the first matching component at user
    level. *)
Definition recordAt (key : string) (context : SecretContext) (s : State)
    : option SecretConfig :=
  match ctx_level context with
  | Lglobal => secretCache s !! "global" ≫= (λ g, g !! key)
  | Lworld =>
      secretCache s !! cacheKey (or_str (ctx_worldId context) "")
        ≫= (λ ws, ws !! key)
  | Luser =>
      (find_first (isSecretFor key)
         (getComponents (or_str (ctx_userId context) "") s)
         ≫= comp_data) ≫= data_metadata
  end.

(** The agent and the roles of every world are the same in [s']. *)
Definition rolesKept (s s' : State) : Prop :=
  agentId s' = agentId s ∧ ∀ worldId, rolesOf s' worldId = rolesOf s worldId.

(** [config.permissions.find((p) => p.entityId === entityId)]. *)
Definition grantedTo (permissions : list SecretPermission) (entityId : string)
    : option SecretPermission :=
  find_first (λ p, bool_decide (Some (perm_entityId p) = Some entityId)) permissions.

(** The permission entry [grantAccess] builds. *)
Definition granted (context : SecretContext) (grantee : string)
    (permissions : list string) (s : State) : SecretPermission :=
  mkPermission grantee permissions
    (or_str (ctx_requesterId context) (or_str (ctx_userId context) (agentId s)))
    (clock s) None.


(** The context the [REQUEST_SECRET_FORM] action builds for a message
    from [entityId]: [{ level: 'user', userId: message.entityId,
    agentId: runtime.agentId, requesterId: runtime.agentId }]. *)
Definition formContext (entityId : string) (s : State) : SecretContext :=
  mkContext Luser None (Some entityId) (agentId s) (Some (agentId s)).


End ManagerVocabulary.

Section FormVocabulary.
Context `{secretStore : SecretStore} `{formHost : FormHost}.

(** The submission record the handler builds. *)
Definition submissionOf (session : FormSession) (body : FormData)
    (ip userAgent : option string) (s : FormState) : FormSubmission :=
  mkSubmission (session_formId session) (session_id session) body (now s) ip userAgent.

(** The callback, if any, returns normally. *)
Definition callbackReturns (session : FormSession) (submission : FormSubmission)
    : Prop :=
  match session_callback session with
  | Some callback => ∃ u, callback submission = Ok u
  | None => True
  end.

(** Every id of the [sessions] map refers to a session object. *)
Definition registered (s : FormState) : Prop :=
  ∀ id r, sessions s !! id = Some r → is_Some (heap s !! r).

(** The test of the sweep: [now >= session.expiresAt ||
    session.status === 'completed']. *)
Definition due (s : FormState) (session : FormSession) : bool :=
  bool_decide (session_expiresAt session ≤ now s)%N
  || bool_decide (session_status session = completed).

(** What [closeTunnel] leaves of a tunnel: it stays when the
    disconnect fails. *)
Definition afterClose (tunnel : Tunnel) : option Tunnel :=
  if ngrok_disconnect (tunnel_url tunnel) then None else Some tunnel.

(** The replacement [escapeHtml] makes for one character. *)
Definition escapeChar (a : ascii) : string :=
  if Ascii.eqb a "&" then "&amp;"
  else if Ascii.eqb a "<" then "&lt;"
  else if Ascii.eqb a ">" then "&gt;"
  else if Ascii.eqb a quote then "&quot;"
  else if Ascii.eqb a "'" then "&#039;"
  else String a EmptyString.

Fixpoint escapeEach (s : string) : string :=
  match s with
  | EmptyString => EmptyString
  | String a s' => escapeChar a +:+ escapeEach s'
  end.

(** No character of [s] opens or closes a tag or an attribute value. *)
Fixpoint markupFree (s : string) : bool :=
  match s with
  | EmptyString => true
  | String a s' =>
      negb (Ascii.eqb a "<" || Ascii.eqb a ">" || Ascii.eqb a quote || Ascii.eqb a "'")
      && markupFree s'
  end.


(** Nothing but the tunnel table differs between [s] and [s']. *)
Definition onlyTunnels (s s' : FormState) : Prop :=
  store s' = store s ∧ heap s' = heap s ∧ sessions s' = sessions s
  ∧ servers s' = servers s ∧ nextPort s' = nextPort s ∧ now s' = now s
  ∧ issued s' = issued s.


(** No session object carries the status [expired]. *)
Definition noneExpired (s : FormState) : Prop :=
  Forall (λ session, session_status session ≠ expired) (heap s).


End FormVocabulary.

(** * Properties of the secret store *)

Section ManagerProperties.
Context `{host : Host}.

(** ** The audit log as a bounded buffer *)

Lemma slice_last_length {A : Type} (n : nat) (l : list A) :
  length (slice_last n l) = Nat.min n (length l).
Proof. unfold slice_last. rewrite length_drop. lia. Qed.

Lemma pushLog_spec (e : SecretAccessLog) (l : list SecretAccessLog) :
  pushLog e l = slice_last 1000 (l ++ [e]).
Proof.
  unfold pushLog. case_bool_decide as Hlen; [done|].
  unfold slice_last. replace (length (l ++ [e]) - 1000) with 0 by lia. done.
Qed.

Lemma pushLog_length (e : SecretAccessLog) (l : list SecretAccessLog) :
  length (pushLog e l) ≤ 1000.
Proof. rewrite pushLog_spec, slice_last_length. lia. Qed.

Lemma pushLog_full (e oldest : SecretAccessLog) (rest : list SecretAccessLog) :
  length (oldest :: rest) = 1000 → pushLog e (oldest :: rest) = rest ++ [e].
Proof.
  intros Hlen. rewrite pushLog_spec. unfold slice_last.
  replace (length ((oldest :: rest) ++ [e]) - 1000) with 1; [done|].
  rewrite length_app. simpl in *. lia.
Qed.

Lemma pushes_trans n m l1 l2 l3 :
  pushes n l1 l2 → pushes m l2 l3 → pushes (m + n) l1 l3.
Proof.
  intros H12 H23. induction H23 as [|m l2 l3 e _ IH]; simpl; [done|].
  constructor. by apply IH.
Qed.

Lemma pushes_bounded n l l' :
  pushes n l l' → length l ≤ 1000 → length l' ≤ 1000.
Proof. destruct 1; [done|]. intros _. apply pushLog_length. Qed.

Lemma pushes_some_bounded n l l' : pushes (S n) l l' → length l' ≤ 1000.
Proof. inversion 1; subst. apply pushLog_length. Qed.

(** ** What the operations leave alone *)

Lemma logAccess_run key action context success error s :
  logAccess key action context success error s
  = (set_accessLogs (pushLog (logEntry key action context success error s)) s, Ok ()).
Proof. done. Qed.

Lemma decrypt_pure v s s' r : decrypt v s = (s', r) → s' = s.
Proof.
  destruct v as [[| e |]|]; simpl; unfold ret, throw; try congruence.
  destruct (gcm_open _ _ _ _); congruence.
Qed.

(** Case analysis along the control flow of a run [Hrun]. *)
Ltac crunch Hrun :=
  repeat (cbv beta iota zeta in Hrun;
          first [ match type of Hrun with
                  | context [decrypt ?v ?s] =>
                      let s' := fresh "s" in
                      let r := fresh "r" in
                      let E := fresh "Edec" in
                      destruct (decrypt v s) as [s' r] eqn:E;
                      apply decrypt_pure in E as ?; subst s'
                  end
                | match type of Hrun with
                  | context [match ?x with _ => _ end] => destruct x eqn:?
                  end ]).

Lemma getGlobalSecret_pure key s s' r : getGlobalSecret key s = (s', r) → s' = s.
Proof.
  unfold getGlobalSecret, bind, gets, ret.
  destruct (truthy _); congruence.
Qed.

Lemma getWorldSecret_pure key worldId s s' r :
  getWorldSecret key worldId s = (s', r) → s' = s.
Proof.
  unfold getWorldSecret, bind, gets, ret. intros Hrun.
  crunch Hrun; simpl in *; congruence.
Qed.

Lemma getUserSecret_pure key userId s s' r :
  getUserSecret key userId s = (s', r) → s' = s.
Proof.
  unfold getUserSecret, bind, gets, ret. intros Hrun.
  crunch Hrun; simpl in *; congruence.
Qed.

Lemma getAtLevel_pure key context s s' r : getAtLevel key context s = (s', r) → s' = s.
Proof.
  unfold getAtLevel, throw. intros Hrun.
  destruct (ctx_level context);
    [ by eapply getGlobalSecret_pure
    | destruct (truthy _); [by eapply getWorldSecret_pure | congruence]
    | destruct (truthy _); [by eapply getUserSecret_pure | congruence] ].
Qed.

(** [get], path by path. *)
Lemma get_run key context s :
  let s1 := set_accessLogs (pushLog (attempt key Aread context s)) s in
  get key context s =
    if checkPermission key Aread context s then
      match snd (getAtLevel key context s1) with
      | Ok r => (s1, Ok r)
      | Throw message =>
          (set_accessLogs (pushLog (failure key Aread context message s)) s1, Ok None)
      end
    else
      (set_accessLogs (pushLog (failure key Aread context "Permission denied" s)) s1,
       Ok None).
Proof.
  intros s1. unfold get, try_catch, bind, gets, ret. rewrite logAccess_run.
  fold (attempt key Aread context s). fold s1.
  replace (checkPermission key Aread context s1)
    with (checkPermission key Aread context s) by done.
  destruct (checkPermission key Aread context s); simpl.
  - destruct (getAtLevel key context s1) as [s2 r] eqn:Hget.
    apply getAtLevel_pure in Hget as ->. simpl.
    by destruct r.
  - done.
Qed.

Lemma encrypt_kept value s s' r : encrypt value s = (s', r) → logsKept s s'.
Proof.
  destruct value; simpl; unfold throw; try (intros [= <- _]; done).
  destruct (gcm_seal _ _ _). by intros [= <- _].
Qed.

Lemma finalValueOf_kept value config s s' r :
  finalValueOf value config s = (s', r) → logsKept s s'.
Proof.
  unfold finalValueOf, bind, ret. destruct (nullish _ _); [|by intros [= <- _]].
  destruct (encrypt value s) as [s1 [e|msg]] eqn:Henc; intros [= <- _];
    by eapply encrypt_kept.
Qed.

Lemma setGlobalSecret_kept key value config s s' r :
  setGlobalSecret key value config s = (s', r) → logsKept s s'.
Proof.
  unfold setGlobalSecret, bind, modify, ret.
  destruct (updateEnvVar _ _ _ _); by intros [= <- _].
Qed.

Lemma setWorldSecret_kept key value worldId config s s' r :
  setWorldSecret key value worldId config s = (s', r) → logsKept s s'.
Proof.
  unfold setWorldSecret, bind, gets, updateWorld, modify, ret, throw.
  destruct (getWorld worldId s); [|by intros [= <- _]].
  destruct (finalValueOf value config s) as [s1 [v|msg]] eqn:Hfinal;
    apply finalValueOf_kept in Hfinal; intros [= <- _]; [|done].
  destruct Hfinal as (?&?&?&?). done.
Qed.

Lemma setUserSecret_kept key value userId config s s' r :
  setUserSecret key value userId config s = (s', r) → logsKept s s'.
Proof.
  unfold setUserSecret, bind, gets, updateComponent, createComponent, modify, ret.
  destruct (finalValueOf value config s) as [s1 [v|msg]] eqn:Hfinal;
    apply finalValueOf_kept in Hfinal; [|by intros [= <- _]].
  destruct (find_first _ _); intros [= <- _]; destruct Hfinal as (?&?&?&?); done.
Qed.

Lemma setAtLevel_kept key value context config s s' r :
  setAtLevel key value context config s = (s', r) → logsKept s s'.
Proof.
  unfold setAtLevel, throw. destruct (ctx_level context).
  - apply setGlobalSecret_kept.
  - destruct (truthy _); [apply setWorldSecret_kept | by intros [= <- _]].
  - destruct (truthy _); [apply setUserSecret_kept | by intros [= <- _]].
Qed.

(** [set], path by path. *)
Lemma set_run key value context config s :
  let s1 := set_accessLogs (pushLog (attempt key Awrite context s)) s in
  set key value context config s =
    if checkPermission key Awrite context s then
      match validationFailure key value config with
      | Some message =>
          (set_accessLogs (pushLog (failure key Awrite context message s)) s1, Ok false)
      | None =>
          match setAtLevel key value context
                  (fullConfigOf key value context config (clock s)) s1 with
          | (s2, Ok stored) => (s2, Ok stored)
          | (s2, Throw message) =>
              (set_accessLogs (pushLog (failure key Awrite context message s)) s2,
               Ok false)
          end
      end
    else
      (set_accessLogs (pushLog (failure key Awrite context "Permission denied" s)) s1,
       Ok false).
Proof.
  intros s1. unfold set, try_catch, bind, gets, ret, throw. rewrite logAccess_run.
  fold (attempt key Awrite context s). fold s1.
  replace (checkPermission key Awrite context s1)
    with (checkPermission key Awrite context s) by done.
  destruct (checkPermission key Awrite context s); simpl; [|done].
  destruct (validationFailure key value config); [done|].
  destruct (setAtLevel _ _ _ _ s1) as [s2 [b|message]] eqn:Hset; [done|].
  apply setAtLevel_kept in Hset as (_ & Hagent & _ & Hclock).
  unfold logAccess, failure, logEntry. simpl in *. by rewrite Hagent, Hclock.
Qed.

(** ** Permission rules *)

Lemma truthy_Some (o : option string) :
  truthy o = true ↔ ∃ x, o = Some x ∧ x ≠ "".
Proof.
  destruct o as [x|]; simpl.
  - rewrite negb_true_iff, bool_decide_eq_false. naive_solver.
  - naive_solver.
Qed.

Lemma or_str_truthy (o : option string) (x d : string) :
  o = Some x → x ≠ "" → or_str o d = x.
Proof. intros -> Hx. simpl. by rewrite bool_decide_eq_false_2. Qed.

(** A denied [set] returns false and changes nothing but the log. *)
Lemma set_denied key value context config s :
  checkPermission key Awrite context s = false →
  ∃ s', set key value context config s = (s', Ok false) ∧ sameSecrets s s'.
Proof.
  intros Hdenied. rewrite set_run, Hdenied. eexists. split; [done|]. done.
Qed.

(** C3 (as the code has it).  [checkPermission] allows exactly: at
    global level, reading, and anything when the requester is the agent;
    at world level, provided the world id is present and the world
    exists, reading by any requester whatever the role, and anything
    when the requester's role is OWNER or ADMIN; at user level, anything
    when the user id is present and the requester is that user.  A
    user-level [set] by anyone else returns false and leaves every
    stored secret as it was. *)
Theorem C3_permission_rules key action context s :
  (checkPermission key action context s = true ↔
   match ctx_level context with
   | Lglobal => action = Aread ∨ ctx_requesterId context = Some (agentId s)
   | Lworld =>
       ∃ worldId world,
         ctx_worldId context = Some worldId ∧ worldId ≠ ""
         ∧ getWorld worldId s = Some world
         ∧ (action = Aread
            ∨ requesterRole world (ctx_requesterId context) = OWNER
            ∨ requesterRole world (ctx_requesterId context) = ADMIN)
   | Luser =>
       ∃ userId,
         ctx_userId context = Some userId ∧ userId ≠ ""
         ∧ ctx_requesterId context = Some userId
   end)
  ∧ (ctx_level context = Luser →
     ctx_requesterId context ≠ ctx_userId context →
     ∀ value config,
       ∃ s', set key value context config s = (s', Ok false) ∧ sameSecrets s s').
Proof.
  split.
  - unfold checkPermission. destruct (ctx_level context).
    + case_bool_decide; [naive_solver|]. rewrite bool_decide_eq_true. naive_solver.
    + destruct (truthy (ctx_worldId context)) eqn:Hid.
      * apply truthy_Some in Hid as (worldId & Hid & Hne).
        rewrite (or_str_truthy _ worldId "" Hid Hne).
        destruct (getWorld worldId s) as [world|] eqn:Hworld; [|naive_solver].
        case_bool_decide as Hread.
        { split; [|done]. intros _. exists worldId, world. naive_solver. }
        rewrite orb_true_iff, !bool_decide_eq_true.
        split.
        { intros Hrole. exists worldId, world. naive_solver. }
        { intros (w' & world' & ? & ? & ? & Hrole). simplify_eq. naive_solver. }
      * split; [done|]. intros (worldId & world & Hsome & Hne & _).
        assert (truthy (ctx_worldId context) = true) by (apply truthy_Some; eauto).
        congruence.
    + destruct (truthy (ctx_userId context)) eqn:Hid.
      * apply truthy_Some in Hid as (userId & Hid & Hne).
        rewrite bool_decide_eq_true, Hid. naive_solver.
      * split; [done|]. intros (userId & Hsome & Hne & _).
        assert (truthy (ctx_userId context) = true) by (apply truthy_Some; eauto).
        congruence.
  - intros Hlevel Hother value config. apply set_denied.
    unfold checkPermission. rewrite Hlevel.
    destruct (truthy (ctx_userId context)); [|done].
    by apply bool_decide_eq_false.
Qed.

(** ** What each operation writes to the audit log *)

Lemma get_logged key context s :
  ∃ s' r,
    get key context s = (s', Ok r)
    ∧ sameSecrets s s'
    ∧ agentId s' = agentId s ∧ clock s' = clock s
    ∧ encryptionKey s' = encryptionKey s
    ∧ ((checkPermission key Aread context s = true
        ∧ accessLogs s' = pushLog (attempt key Aread context s) (accessLogs s))
       ∨ (r = None
          ∧ ∃ message,
              accessLogs s' =
                pushLog (failure key Aread context message s)
                  (pushLog (attempt key Aread context s) (accessLogs s)))).
Proof.
  rewrite get_run. destruct (checkPermission key Aread context s).
  - destruct (snd (getAtLevel _ _ _)) as [r|message].
    + eexists _, r. split; [reflexivity|].
      split; [by repeat split|]. do 3 (split; [reflexivity|]).
      left. split; reflexivity.
    + eexists _, None. split; [reflexivity|].
      split; [by repeat split|]. do 3 (split; [reflexivity|]).
      right. split; [reflexivity|]. exists message. reflexivity.
  - eexists _, None. split; [reflexivity|].
    split; [by repeat split|]. do 3 (split; [reflexivity|]).
    right. split; [reflexivity|]. eexists. reflexivity.
Qed.

Lemma setAtLevel_true key value context config s s' stored :
  setAtLevel key value context config s = (s', Ok stored) → stored = true.
Proof.
  unfold setAtLevel, setGlobalSecret, setWorldSecret, setUserSecret,
    bind, gets, modify, ret, throw, updateWorld, updateComponent, createComponent.
  intros Hrun. crunch Hrun; simplify_eq/=; done.
Qed.

Lemma set_logged key value context config s :
  ∃ s' stored,
    set key value context config s = (s', Ok stored)
    ∧ agentId s' = agentId s ∧ clock s' = clock s
    ∧ encryptionKey s' = encryptionKey s
    ∧ ((stored = true
        ∧ checkPermission key Awrite context s = true
        ∧ accessLogs s' = pushLog (attempt key Awrite context s) (accessLogs s))
       ∨ (stored = false
          ∧ ∃ message,
              accessLogs s' =
                pushLog (failure key Awrite context message s)
                  (pushLog (attempt key Awrite context s) (accessLogs s)))).
Proof.
  rewrite set_run. destruct (checkPermission key Awrite context s).
  - destruct (validationFailure key value config) as [message|].
    { eexists _, false. split; [reflexivity|]. do 3 (split; [reflexivity|]).
      right. split; [reflexivity|]. exists message. reflexivity. }
    destruct (setAtLevel _ _ _ _ _) as [s2 [stored|message]] eqn:Hset.
    + pose proof (setAtLevel_true _ _ _ _ _ _ _ Hset) as ->.
      apply setAtLevel_kept in Hset as (Hlogs & ? & ? & ?).
      eexists _, true. split; [reflexivity|]. do 3 (split; [done|]).
      left. do 2 (split; [reflexivity|]). exact Hlogs.
    + apply setAtLevel_kept in Hset as (Hlogs & ? & ? & ?).
      eexists _, false. split; [reflexivity|]. do 3 (split; [done|]).
      right. split; [done|]. exists message. simpl. by rewrite Hlogs.
  - eexists _, false. split; [reflexivity|]. do 3 (split; [reflexivity|]).
    right. split; [reflexivity|]. eexists. reflexivity.
Qed.

Lemma listSecrets_pure context s s' r : listSecrets context s = (s', r) → s' = s.
Proof.
  unfold listSecrets, bind, gets, ret, throw.
  destruct (ctx_level context); [congruence| |];
    destruct (truthy _); congruence.
Qed.

Lemma pushShared_kept key context newPermission grantee s :
  ∃ s', pushShared key context newPermission grantee s = (s', Ok ()) ∧ logsKept s s'.
Proof.
  unfold pushShared, modify, ret.
  destruct (ctx_level context); eexists; (split; [reflexivity|done]).
Qed.

Lemma pushes_one e l : pushes 1 l (pushLog e l).
Proof. constructor. constructor. Qed.

Lemma pushes_two e1 e2 l : pushes 2 l (pushLog e2 (pushLog e1 l)).
Proof. constructor. apply pushes_one. Qed.

Lemma get_pushes key context s s' r :
  get key context s = (s', r) →
  (pushes 1 (accessLogs s) (accessLogs s')
   ∨ (r = Ok None ∧ pushes 2 (accessLogs s) (accessLogs s'))).
Proof.
  destruct (get_logged key context s) as (s1 & r1 & -> & _ & _ & _ & _ & Hlog).
  intros [= <- <-]. destruct Hlog as [[_ ->]|[-> [message ->]]].
  - left. apply pushes_one.
  - right. split; [done|]. apply pushes_two.
Qed.

Lemma set_pushes key value context config s s' r :
  set key value context config s = (s', r) →
  pushes 1 (accessLogs s) (accessLogs s') ∨ pushes 2 (accessLogs s) (accessLogs s').
Proof.
  destruct (set_logged key value context config s)
    as (s1 & r1 & -> & _ & _ & _ & Hlog).
  intros [= <- <-]. destruct Hlog as [(_ & _ & ->)|[_ [message ->]]].
  - left. apply pushes_one.
  - right. apply pushes_two.
Qed.

Lemma updateSecretConfig_pushes key context config s s' r :
  updateSecretConfig key context config s = (s', r) →
  ∃ n, 1 ≤ n ≤ 3 ∧ pushes n (accessLogs s) (accessLogs s').
Proof.
  unfold updateSecretConfig, bind, ret.
  destruct (get key context s) as [s1 r1] eqn:Hget.
  pose proof (get_pushes _ _ _ _ _ Hget) as Hread.
  destruct (get_logged key context s) as (s1' & v & Hget' & _).
  rewrite Hget in Hget'. injection Hget' as <- ->.
  destruct v as [v|].
  - destruct Hread as [Hread|[? _]]; [|done].
    destruct (set key v context (Some (as_partial config)) s1) as [s2 r2] eqn:Hset.
    intros [= <- <-].
    destruct (set_pushes _ _ _ _ _ _ _ Hset) as [Hwrite|Hwrite].
    + exists 2. split; [lia|]. apply (pushes_trans 1 1 _ _ _ Hread Hwrite).
    + exists 3. split; [lia|]. apply (pushes_trans 1 2 _ _ _ Hread Hwrite).
  - intros [= <- <-]. destruct Hread as [Hread|[_ Hread]].
    + exists 1. split; [lia|done].
    + exists 2. split; [lia|done].
Qed.

Lemma grantAccess_pushes key context grantee permissions s s' r :
  grantAccess key context grantee permissions s = (s', r) →
  (checkPermission key Ashare context s = false → s' = s ∧ r = Ok false)
  ∧ ∃ n, n ≤ 3 ∧ pushes n (accessLogs s) (accessLogs s').
Proof.
  unfold grantAccess, getSecretConfig, bind, gets, ret. intros Hrun.
  destruct (checkPermission key Ashare context s); simpl in Hrun.
  2:{ injection Hrun as <- <-. split; [done|]. exists 0. split; [lia|constructor]. }
  split; [done|].
  destruct (listSecrets context s) as [s1 [metadata|message]] eqn:Hlist;
    apply listSecrets_pure in Hlist as ->.
  2:{ injection Hrun as <- <-. exists 0. split; [lia|constructor]. }
  destruct (metadata !! key) as [config|].
  2:{ injection Hrun as <- <-. exists 0. split; [lia|constructor]. }
  match type of Hrun with
  | context [pushShared ?k ?c ?p ?g s] =>
      destruct (pushShared_kept k c p g s) as (s2 & Hpush & Hkept);
      rewrite Hpush in Hrun
  end.
  apply updateSecretConfig_pushes in Hrun as (n & Hn & Hpushes).
  destruct Hkept as (Hlogs & _). rewrite Hlogs in Hpushes.
  exists n. split; [lia|done].
Qed.

Lemma revokeAccess_pushes key context grantee s s' r :
  revokeAccess key context grantee s = (s', r) →
  (checkPermission key Ashare context s = false → s' = s ∧ r = Ok false)
  ∧ ∃ n, n ≤ 3 ∧ pushes n (accessLogs s) (accessLogs s').
Proof.
  unfold revokeAccess, getSecretConfig, bind, gets, ret. intros Hrun.
  destruct (checkPermission key Ashare context s); simpl in Hrun.
  2:{ injection Hrun as <- <-. split; [done|]. exists 0. split; [lia|constructor]. }
  split; [done|].
  destruct (listSecrets context s) as [s1 [metadata|message]] eqn:Hlist;
    apply listSecrets_pure in Hlist as ->.
  2:{ injection Hrun as <- <-. exists 0. split; [lia|constructor]. }
  destruct (metadata !! key) as [config|].
  2:{ injection Hrun as <- <-. exists 0. split; [lia|constructor]. }
  apply updateSecretConfig_pushes in Hrun as (n & Hn & Hpushes).
  exists n. split; [lia|done].
Qed.


(** C5.  After every [logAccess] the log holds at most 1000 entries;
    when it held exactly 1000, the oldest one is dropped by that very
    call and [getAccessLogs] no longer returns it.  The bound survives
    [get], [set], [grantAccess] and [revokeAccess]. *)
Theorem C5_log_bounded key action context success error s :
  let s' := fst (logAccess key action context success error s) in
  length (accessLogs s') ≤ 1000
  ∧ (∀ oldest rest,
       accessLogs s = oldest :: rest → length (accessLogs s) = 1000 →
       accessLogs s' = rest ++ [logEntry key action context success error s]
       ∧ (oldest ∉ rest ++ [logEntry key action context success error s] →
          ∀ k c, oldest ∉ getAccessLogs k c s'))
  ∧ length (accessLogs (fst (get key context s))) ≤ 1000
  ∧ (∀ value config, length (accessLogs (fst (set key value context config s))) ≤ 1000)
  ∧ (length (accessLogs s) ≤ 1000 →
     (∀ grantee permissions,
        length (accessLogs (fst (grantAccess key context grantee permissions s))) ≤ 1000)
     ∧ (∀ grantee,
        length (accessLogs (fst (revokeAccess key context grantee s))) ≤ 1000)).
Proof.
  intros s'. subst s'. rewrite logAccess_run. simpl.
  split; [apply pushLog_length|]. split; [|split; [|split]].
  - intros oldest rest Hlogs Hlen. rewrite Hlogs in *.
    rewrite (pushLog_full _ _ _ Hlen). split; [done|].
    intros Hgone k c Hin. apply Hgone.
    unfold getAccessLogs in Hin. simpl in Hin. rewrite Hlogs in Hin.
    rewrite (pushLog_full _ _ _ Hlen) in Hin.
    by apply list_elem_of_filter in Hin as [_ Hin].
  - destruct (get key context s) as [s1 r] eqn:Hget. simpl.
    apply get_pushes in Hget as [Hp|[_ Hp]]; by eapply pushes_some_bounded.
  - intros value config.
    destruct (set key value context config s) as [s1 r] eqn:Hset. simpl.
    apply set_pushes in Hset as [Hp|Hp]; by eapply pushes_some_bounded.
  - intros Hbound. split.
    + intros grantee permissions.
      destruct (grantAccess key context grantee permissions s) as [s1 r] eqn:Hrun.
      apply grantAccess_pushes in Hrun as [_ (n & _ & Hp)]. simpl.
      by eapply pushes_bounded.
    + intros grantee.
      destruct (revokeAccess key context grantee s) as [s1 r] eqn:Hrun.
      apply revokeAccess_pushes in Hrun as [_ (n & _ & Hp)]. simpl.
      by eapply pushes_bounded.
Qed.

(** ** What a successful [set] leaves behind *)

Lemma set_true_inv key value context config s s' :
  set key value context config s = (s', Ok true) →
  checkPermission key Awrite context s = true
  ∧ setAtLevel key value context (fullConfigOf key value context config (clock s))
      (set_accessLogs (pushLog (attempt key Awrite context s)) s) = (s', Ok true).
Proof.
  rewrite set_run. destruct (checkPermission key Awrite context s); [|done].
  destruct (validationFailure key value config); [done|].
  destruct (setAtLevel _ _ _ _ _) as [s2 [stored|message]]; [|done].
  by intros [= <- <-].
Qed.

Lemma finalValueOf_ok value config s s' finalValue :
  finalValueOf value config s = (s', Ok finalValue) →
  storedAs value config (encryptionKey s) finalValue
  ∧ logsKept s s' ∧ sameSecrets s s'.
Proof.
  unfold finalValueOf, storedAs, bind, ret.
  destruct (nullish _ _); [|by intros [= <- <-]].
  destruct value as [plaintext| |]; simpl; unfold throw; try done.
  destruct (gcm_seal _ _ _) as [c t] eqn:Hseal. intros [= <- <-].
  split; [|done]. exists plaintext, (randomBytes (drawn s)). by rewrite Hseal.
Qed.

Lemma setGlobalSecret_stored key value config s s' stored :
  setGlobalSecret key value config s = (s', Ok stored) →
  ∃ globalSecrets,
    secretCache s' !! "global" = Some globalSecrets
    ∧ globalSecrets !! key = Some config.
Proof.
  unfold setGlobalSecret, bind, modify, ret.
  destruct (updateEnvVar _ _ _ _); [|done]. intros [= <- _]. simpl.
  eexists. rewrite lookup_insert_eq. split; [done|]. by rewrite lookup_insert_eq.
Qed.

Lemma setWorldSecret_stored key value worldId config s s' stored :
  setWorldSecret key value worldId config s = (s', Ok stored) →
  ∃ worldSecrets finalValue,
    secretCache s' !! cacheKey worldId = Some worldSecrets
    ∧ worldSecrets !! key = Some (with_value config (Some finalValue))
    ∧ storedAs value config (encryptionKey s) finalValue
    ∧ is_Some (getWorld worldId s').
Proof.
  unfold setWorldSecret, bind, gets, updateWorld, modify, ret, throw.
  destruct (getWorld worldId s); [|done].
  destruct (finalValueOf value config s) as [s1 [finalValue|message]] eqn:Hfinal;
    [|done].
  apply finalValueOf_ok in Hfinal as (Hstored & _ & _).
  intros [= <- _]. simpl. eexists _, finalValue.
  rewrite lookup_insert_eq. split; [done|]. rewrite lookup_insert_eq.
  split; [done|]. split; [done|]. unfold getWorld. simpl.
  rewrite lookup_insert_eq. by eexists.
Qed.

Lemma find_first_filter userId key (comps : list Component) :
  find_first (isSecretFor key) (filter (λ c, comp_entityId c = userId) comps)
  = find_first (isRowOf userId key) comps.
Proof.
  induction comps as [|c comps IH]; [done|].
  rewrite filter_cons. unfold isRowOf at 1. simpl. case_decide as Hc.
  - rewrite bool_decide_eq_true_2 by done. simpl.
    destruct (isSecretFor key c); [done|]. apply IH.
  - rewrite bool_decide_eq_false_2 by done. simpl. apply IH.
Qed.

Lemma find_first_updated (p : Component → bool) (existing replaced : Component)
    (comps : list Component) :
  find_first p comps = Some existing → p replaced = true →
  find_first p
    ((λ row, if bool_decide (comp_id row = comp_id existing) then replaced else row)
       <$> comps) = Some replaced.
Proof.
  intros Hfound Hp. induction comps as [|c comps IH]; [done|].
  simpl in *. destruct (p c) eqn:Hc.
  - injection Hfound as ->. rewrite bool_decide_eq_true_2 by done. by rewrite Hp.
  - case_bool_decide; [by rewrite Hp|]. rewrite Hc. by apply IH.
Qed.

Lemma find_first_created (p : Component → bool) (created : Component)
    (comps : list Component) :
  find_first p comps = None → p created = true →
  find_first p (comps ++ [created]) = Some created.
Proof.
  intros Hnone Hp. induction comps as [|c comps IH]; simpl in *.
  - by rewrite Hp.
  - destruct (p c); [done|]. by apply IH.
Qed.

Lemma find_first_holds {A : Type} (p : A → bool) (l : list A) (x : A) :
  find_first p l = Some x → p x = true ∧ x ∈ l.
Proof.
  induction l as [|y l IH]; [done|]. simpl. destruct (p y) eqn:Hy.
  - intros [= ->]. split; [done|]. apply list_elem_of_here.
  - intros Hfound. destruct (IH Hfound). split; [done|]. by apply list_elem_of_further.
Qed.

Lemma setUserSecret_stored key value userId config s s' stored :
  setUserSecret key value userId config s = (s', Ok stored) →
  ∃ row finalValue,
    find_first (isSecretFor key) (getComponents userId s') = Some row
    ∧ comp_type row = "secret"
    ∧ comp_data row
      = Some (mkData key (Some finalValue) (Some config) false (clock s))
    ∧ storedAs value config (encryptionKey s) finalValue.
Proof.
  unfold setUserSecret, bind, gets, ret.
  destruct (finalValueOf value config s) as [s1 [finalValue|message]] eqn:Hfinal;
    [|done].
  apply finalValueOf_ok in Hfinal
    as (Hstored & (_ & Hagent & _ & Hclock) & (_ & _ & Hcomps & _)).
  unfold getComponents. rewrite !find_first_filter. rewrite Hclock.
  destruct (find_first (isRowOf userId key) (components s)) as [existing|] eqn:Hfind.
  - unfold updateComponent, modify. intros [= <- _]. simpl. rewrite Hcomps.
    apply find_first_holds in Hfind as Hrow. destruct Hrow as [Hrow _].
    unfold isRowOf, isSecretFor in Hrow.
    apply andb_true_iff in Hrow as [Hentity Hrow].
    apply andb_true_iff in Hrow as [_ Htype].
    apply bool_decide_eq_true in Hentity, Htype.
    eexists _, finalValue. split.
    { apply (find_first_updated _ existing); [done|].
      unfold isRowOf, isSecretFor. simpl. by rewrite !bool_decide_eq_true_2. }
    simpl. done.
  - unfold createComponent, modify. intros [= <- _]. simpl. rewrite Hcomps.
    eexists _, finalValue. split.
    { apply find_first_created; [done|].
      unfold isRowOf, isSecretFor. simpl. by rewrite !bool_decide_eq_true_2. }
    simpl. done.
Qed.

(** ** Listing *)






(** ** Round trip *)



(** ** Absent, denied and tampered records *)

Lemma decrypt_rejected e s :
  tagRejected e s →
  decrypt (Some (VEncrypted e)) s = (s, Throw authenticationError).
Proof. unfold tagRejected. simpl. by intros ->. Qed.

(** C2 (as the code has it).  [get] never throws.  It returns null for
    a denied request and for a missing key.  [decrypt] throws on a
    payload whose authTag does not verify, but [get] catches that error
    too and returns null: the tampered record differs from an absent one
    only in the audit log, which then carries a failed read with the
    error message after the entry of the attempt. *)
Theorem C2_get_failure_modes key context s :
  (∃ s' r, get key context s = (s', Ok r))
  ∧ (checkPermission key Aread context s = false →
     ∃ s', get key context s = (s', Ok None))
  ∧ (checkPermission key Aread context s = true → absentAt key context s →
     ∃ s', get key context s = (s', Ok None)
           ∧ accessLogs s' = pushLog (attempt key Aread context s) (accessLogs s))
  ∧ (∀ e,
       checkPermission key Aread context s = true →
       sealedAt key context s e → tagRejected e s →
       snd (decrypt (Some (VEncrypted e)) s) = Throw authenticationError
       ∧ ∃ s', get key context s = (s', Ok None)
               ∧ accessLogs s' =
                   pushLog (failure key Aread context authenticationError s)
                     (pushLog (attempt key Aread context s) (accessLogs s))).
Proof.
  split; [|split; [|split]].
  - destruct (get_logged key context s) as (s' & r & Hget & _). eauto.
  - intros Hdenied. rewrite get_run, Hdenied. eauto.
  - intros Hallowed Habsent. rewrite get_run, Hallowed.
    cut (snd (getAtLevel key context
                (set_accessLogs (pushLog (attempt key Aread context s)) s))
         = Ok None).
    { intros ->. eauto. }
    revert Habsent. unfold absentAt, getAtLevel.
    destruct (ctx_level context).
    + intros [Henv Hcache]. unfold getGlobalSecret, bind, gets, ret.
      cbv beta iota. simpl. rewrite Henv. simpl in *. by rewrite Hcache.
    + intros (worldId & Hid & Hne & Hcache & Hmeta).
      rewrite (or_str_truthy _ _ "" Hid Hne).
      replace (truthy (ctx_worldId context)) with true
        by (symmetry; apply truthy_Some; eauto).
      unfold getWorldSecret, bind, gets, ret. cbv beta iota. simpl.
      simpl in Hcache. rewrite Hcache.
      unfold getWorld in *. simpl. by rewrite Hmeta.
    + intros (userId & Hid & Hne & Hfind).
      rewrite (or_str_truthy _ _ "" Hid Hne).
      replace (truthy (ctx_userId context)) with true
        by (symmetry; apply truthy_Some; eauto).
      unfold getUserSecret, bind, gets, ret. cbv beta iota.
      unfold getComponents in *. simpl. by rewrite Hfind.
  - intros e Hallowed Hsealed Hrejected.
    split; [by rewrite decrypt_rejected|].
    rewrite get_run, Hallowed.
    cut (snd (getAtLevel key context
                (set_accessLogs (pushLog (attempt key Aread context s)) s))
         = Throw authenticationError).
    { intros ->. eauto. }
    revert Hsealed. unfold sealedAt, getAtLevel.
    destruct (ctx_level context); [done| |].
    + intros (worldId & ws & config & Hid & Hne & Hcache & Hkeyed & Henc & Hvalue).
      rewrite (or_str_truthy _ _ "" Hid Hne).
      replace (truthy (ctx_worldId context)) with true
        by (symmetry; apply truthy_Some; eauto).
      unfold getWorldSecret, bind, gets, ret. cbv beta iota. simpl.
      rewrite Hcache. simpl. rewrite Hkeyed, Henc, Hvalue. simpl.
      unfold tagRejected in Hrejected. by rewrite Hrejected.
    + intros (userId & row & data & metadata & Hid & Hne & Hfind & Hdata & Hvalue
              & Hmeta & Henc & Halg).
      rewrite (or_str_truthy _ _ "" Hid Hne).
      replace (truthy (ctx_userId context)) with true
        by (symmetry; apply truthy_Some; eauto).
      unfold getUserSecret, bind, gets, ret. cbv beta iota.
      unfold getComponents in *. simpl. rewrite Hfind. simpl.
      rewrite Hdata, Hmeta. simpl. rewrite Henc, Hvalue. simpl.
      rewrite bool_decide_eq_false_2 by done. simpl.
      unfold tagRejected in Hrejected. by rewrite Hrejected.
Qed.

End ManagerProperties.

(** * Properties of the form service *)

Section FormProperties.
Context `{secretStore : SecretStore} `{formHost : FormHost}.

(** ** Validation *)

Lemma collectErrors_keeps fields data errors k :
  is_Some (errors !! k) → is_Some (collectErrors fields data errors !! k).
Proof.
  revert errors. induction fields as [|field rest IH]; intros errors Hk; [done|].
  simpl. apply IH. destruct (fieldError field data); [|done].
  destruct (decide (field_name field = k)) as [->|Hne].
  - rewrite lookup_insert_eq. by eexists.
  - by rewrite lookup_insert_ne.
Qed.

Lemma collectErrors_reports fields data errors field :
  field ∈ fields → is_Some (fieldError field data) →
  is_Some (collectErrors fields data errors !! field_name field).
Proof.
  revert errors. induction fields as [|f rest IH]; intros errors Hin [message Herr].
  - by apply elem_of_nil in Hin.
  - apply elem_of_cons in Hin as [<-|Hin]; simpl.
    + rewrite Herr. apply collectErrors_keeps. rewrite lookup_insert_eq. by eexists.
    + apply IH; [done|by eexists].
Qed.

Lemma collectErrors_clean fields data errors :
  (∀ field, field ∈ fields → fieldError field data = None) →
  collectErrors fields data errors = errors.
Proof.
  revert errors. induction fields as [|f rest IH]; intros errors Hclean; [done|].
  simpl. rewrite (Hclean f) by apply list_elem_of_here.
  apply IH. intros field Hin. apply Hclean. by apply list_elem_of_further.
Qed.

(** A payload fails validation exactly when some field has an error. *)
Lemma validateSubmission_invalid schema data :
  fst (validateSubmission schema data) = false ↔
  ∃ field, field ∈ schema_fields schema ∧ is_Some (fieldError field data).
Proof.
  unfold validateSubmission. simpl. rewrite bool_decide_eq_false. split.
  - intros Hsize.
    destruct (decide (Exists (λ field, is_Some (fieldError field data))
                        (schema_fields schema))) as [Hex|Hnone].
    + apply Exists_exists in Hex. naive_solver.
    + exfalso. apply Hsize.
      rewrite collectErrors_clean; [apply map_size_empty|].
      intros field Hin. destruct (fieldError field data) eqn:Herr; [|done].
      exfalso. apply Hnone, Exists_exists. exists field. rewrite Herr. eauto.
  - intros (field & Hin & Herr) Hsize.
    apply map_size_empty_iff in Hsize.
    pose proof (collectErrors_reports _ data ∅ field Hin Herr) as [m Hm].
    rewrite Hsize in Hm. by rewrite lookup_empty in Hm.
Qed.

(** An empty payload leaves every required field in error. *)
Lemma fieldError_required field :
  field_required field = true →
  fieldError field ∅ = Some (field_label field +:+ " is required").
Proof. intros Hreq. unfold fieldError. by rewrite lookup_empty, Hreq. Qed.

(** C8.  When the payload of a submission fails validation, the handler
    changes nothing: the secret store, the session and its submissions
    are as before, so nothing was persisted.  On an active session the
    answer is the field-to-message map, with an entry for every field
    in error (a required field the payload leaves empty is one). *)
Theorem C8_invalid_submission_rejected r context body ip userAgent s session :
  heap s !! r = Some session →
  fst (validateSubmission (session_schema session) body) = false →
  fst (submitRoute r context body ip userAgent s) = s
  ∧ (session_status session = active →
     ∃ errors,
       snd (submitRoute r context body ip userAgent s) = Some (ValidationErrors errors)
       ∧ (∀ field,
            field ∈ schema_fields (session_schema session) →
            is_Some (fieldError field body) →
            is_Some (errors !! field_name field))
       ∧ (∀ field,
            field ∈ schema_fields (session_schema session) →
            field_required field = true → body !! field_name field = None →
            errors !! field_name field ≠ None)).
Proof.
  intros Hsession Hinvalid. unfold submitRoute. rewrite Hsession.
  case_bool_decide as Hstatus; [split; [done|]; by intros ?|].
  rewrite Hinvalid. cbn [negb]. split; [done|]. intros _.
  exists (default ∅ (snd (validateSubmission (session_schema session) body))).
  split; [done|].
  assert (snd (validateSubmission (session_schema session) body)
          = Some (collectErrors (schema_fields (session_schema session)) body ∅))
    as ->.
  { revert Hinvalid. unfold validateSubmission. simpl.
    rewrite bool_decide_eq_false. intros Hsize.
    rewrite bool_decide_eq_true_2; [done|]. lia. }
  simpl. split.
  - intros field Hin Herr. by apply collectErrors_reports.
  - intros field Hin Hreq Hmissing.
    assert (is_Some (fieldError field body)) as Herr.
    { unfold fieldError. rewrite Hmissing, Hreq. simpl. by eexists. }
    destruct (collectErrors_reports _ body ∅ field Hin Herr) as [m ->]. done.
Qed.

(** ** Persisting *)

(** C9 (as the code has it).  The declared secrets are visited in
    the order of the request.  A secret whose submitted value is absent
    or empty is skipped; every other one gets one call of [set], made on
    the store its predecessors left.  When that call throws, the error
    is the result, the secrets after it are not visited, and the store
    is the one the failing call left: what was stored before stays. *)
Theorem C9_secrets_persisted_in_order pre secret post data context st st1 :
  storeSecrets pre data context st = (st1, Ok ()) →
  storeSecrets (pre ++ secret :: post) data context st =
    if truthy (data !! sr_key secret) then
      match store_set (sr_key secret) (or_str (data !! sr_key secret) "") context
              (Some (sr_config secret)) st1 with
      | (st2, Ok _) => storeSecrets post data context st2
      | (st2, Throw message) => (st2, Throw message)
      end
    else storeSecrets post data context st1.
Proof.
  revert st. induction pre as [|first pre IH]; intros st; simpl.
  - by intros [= ->].
  - destruct (truthy (data !! sr_key first)); [|apply IH].
    destruct (store_set _ _ _ _ st) as [st' [stored|message]]; [apply IH|done].
Qed.

(** ** Accepted and failed submissions *)

Lemma closeTunnel_heap tunnelId s : heap (closeTunnel tunnelId s) = heap s.
Proof.
  unfold closeTunnel. destruct (tunnels s !! tunnelId); [|done].
  by destruct (ngrok_disconnect _).
Qed.

Lemma closeSession_heap sessionId s : heap (closeSession sessionId s) = heap s.
Proof.
  unfold closeSession. destruct (getSession sessionId s); [|done]. simpl.
  case_bool_decide; simpl; apply closeTunnel_heap.
Qed.

(** After [closeSession] the id is no longer registered. *)
Lemma closeSession_closed sessionId s :
  getSession sessionId (closeSession sessionId s) = None.
Proof.
  unfold closeSession. destruct (getSession sessionId s) eqn:Hsession; [|done].
  unfold getSession. simpl. by rewrite lookup_delete_eq.
Qed.

(** A valid submission on an active session whose secrets persist. *)
Lemma submit_persisted r context body ip userAgent s session st' :
  heap s !! r = Some session →
  session_status session = active →
  fst (validateSubmission (session_schema session) body) = true →
  storeSecrets (req_secrets (session_request session)) body context (store s)
    = (st', Ok ()) →
  let submission := submissionOf session body ip userAgent s in
  let pushed := session_submissions session ++ [submission] in
  let full :=
    bool_decide (or_num (schema_maxSubmissions (session_schema session)) 1 ≤ length pushed) in
  let recorded := set_store st' (set_heap (<[r := with_progress session pushed active]> (heap s)) s) in
  fst (submitRoute r context body ip userAgent s)
  = (if full
     then closeSession (session_id session)
            (set_heap (<[r := with_progress session pushed completed]> (heap recorded))
               recorded)
     else recorded)
  ∧ heap (fst (submitRoute r context body ip userAgent s)) !! r
    = Some (with_progress session pushed (if full then completed else active))
  ∧ (callbackReturns session submission →
     snd (submitRoute r context body ip userAgent s)
     = Some (Success (schema_successMessage (session_schema session)))).
Proof.
  intros Hsession Hactive Hvalid Hstore. cbv zeta.
  assert (r < length (heap s)) as Hr by (by eapply lookup_lt_Some).
  unfold submitRoute, storeSubmittedSecrets, callbackReturns, submissionOf.
  rewrite Hsession, Hactive, Hvalid.
  rewrite bool_decide_eq_false_2 by (by intros ?). cbn [negb]. simpl.
  rewrite Hstore. simpl.
  destruct (session_callback session) as [callback|];
    [destruct (callback _) as [u|message]|]; simpl;
    (split; [done|]); (split; [|try done; by intros [? ?]]);
    case_bool_decide; simpl;
    rewrite ?closeSession_heap; simpl; rewrite ?list_insert_insert_eq;
    by apply list_lookup_insert_eq.
Qed.

(** C10.  The handler records the submission before it persists the
    secrets.  When persisting throws, the answer is a 500, the session
    stays active and keeps the record: the status route counts it, and
    so does the test against [maxSubmissions] of the next submission. *)
Theorem C10_failed_submission_is_kept r context body ip userAgent s session st'
    message :
  heap s !! r = Some session →
  session_status session = active →
  fst (validateSubmission (session_schema session) body) = true →
  storeSecrets (req_secrets (session_request session)) body context (store s)
    = (st', Throw message) →
  let submission := submissionOf session body ip userAgent s in
  let kept := with_progress session (session_submissions session ++ [submission]) active in
  let s1 := fst (submitRoute r context body ip userAgent s) in
  snd (submitRoute r context body ip userAgent s) = Some ServerError
  ∧ heap s1 !! r = Some kept
  ∧ store s1 = st'
  ∧ snd (statusRoute r s1)
    = Some (StatusReport active (S (length (session_submissions session)))
              (schema_maxSubmissions (session_schema session))
              (session_expiresAt session))
  ∧ (∀ body2 ip2 userAgent2 st2,
       fst (validateSubmission (session_schema session) body2) = true →
       storeSecrets (req_secrets (session_request session)) body2 context (store s1)
         = (st2, Ok ()) →
       ∃ session2,
         heap (fst (submitRoute r context body2 ip2 userAgent2 s1)) !! r = Some session2
         ∧ session_status session2
           = if bool_decide (or_num (schema_maxSubmissions (session_schema session)) 1
                             ≤ length (session_submissions session) + 2)
             then completed else active).
Proof.
  intros Hsession Hactive Hvalid Hstore. cbv zeta.
  assert (r < length (heap s)) as Hr by (by eapply lookup_lt_Some).
  assert (submitRoute r context body ip userAgent s
          = (set_store st'
               (set_heap
                  (<[r := with_progress session
                            (session_submissions session
                             ++ [submissionOf session body ip userAgent s]) active]>
                     (heap s)) s),
             Some ServerError)) as Hrun.
  { unfold submitRoute, storeSubmittedSecrets, submissionOf.
    rewrite Hsession, Hactive, Hvalid.
    rewrite bool_decide_eq_false_2 by (by intros ?). cbn [negb]. simpl.
    by rewrite Hstore. }
  rewrite Hrun. simpl.
  assert (<[r := with_progress session
                   (session_submissions session
                    ++ [submissionOf session body ip userAgent s]) active]> (heap s) !! r
          = Some (with_progress session
                    (session_submissions session
                     ++ [submissionOf session body ip userAgent s]) active))
    as Hkept by (by apply list_lookup_insert_eq).
  split; [done|]. split; [done|]. split; [done|]. split.
  - unfold statusRoute. simpl. rewrite Hkept. simpl.
    rewrite length_app. simpl. do 3 f_equal. lia.
  - intros body2 ip2 userAgent2 st2 Hvalid2 Hstore2.
    eexists. split.
    + eapply (submit_persisted r context body2 ip2 userAgent2 _ _ st2);
        [exact Hkept|done|done|exact Hstore2].
    + simpl. rewrite !length_app. simpl.
      replace (length (session_submissions session) + 1 + 1)
        with (length (session_submissions session) + 2) by lia.
      done.
Qed.

(** ** Terminal states *)

Lemma closeAll_heap ids s :
  heap (foldl (λ acc id, closeSession id acc) s ids) = heap s.
Proof.
  revert s. induction ids as [|id ids IH]; intros s; [done|].
  simpl. by rewrite IH, closeSession_heap.
Qed.






End FormProperties.

(** * The manager as the store of the form service *)

Section ManagedForms.
Context `{host : Host}.

(** [EnhancedSecretManager.set] catches every error, so on this store
    the loop of [storeSubmittedSecrets] always runs to its end. *)
Lemma managed_store_never_throws secrets data context (st : State) :
  ∃ st', @storeSecrets manager_store secrets data context st = (st', Ok ()).
Proof.
  revert st. induction secrets as [|secret rest IH]; intros st; simpl.
  - by eexists.
  - destruct (truthy (data !! sr_key secret)); [|apply IH].
    destruct (set_logged (sr_key secret) (VString (or_str (data !! sr_key secret) ""))
                context (Some (sr_config secret)) st)
      as (st1 & stored & -> & _).
    apply IH.
Qed.

End ManagedForms.

(** * Further properties of the secret store *)

Section StoreFrames.
Context `{host : Host}.

(** ** What decides a permission *)

Lemma checkPermission_rolesOf key action context s s' :
  agentId s' = agentId s →
  (∀ worldId, rolesOf s' worldId = rolesOf s worldId) →
  checkPermission key action context s' = checkPermission key action context s.
Proof.
  intros Hagent Hroles. unfold checkPermission. rewrite Hagent.
  destruct (ctx_level context); [done| |done].
  destruct (truthy (ctx_worldId context)); [|done].
  specialize (Hroles (or_str (ctx_worldId context) "")).
  unfold rolesOf, getWorld, requesterRole in *.
  destruct (worlds s' !! _) as [w'|], (worlds s !! _) as [w|];
    simpl in Hroles; try done.
  injection Hroles as Hroles. by rewrite Hroles.
Qed.

(** What [set] changes at each level, and nothing else. *)
Lemma setAtLevel_frame key value context config s s' r :
  setAtLevel key value context config s = (s', r) →
  (∀ worldId, rolesOf s' worldId = rolesOf s worldId)
  ∧ match ctx_level context with
    | Lglobal =>
        worlds s' = worlds s ∧ components s' = components s
        ∧ ∀ k, k ≠ "global" → secretCache s' !! k = secretCache s !! k
    | Lworld =>
        env s' = env s ∧ components s' = components s
        ∧ (∀ k, k ≠ cacheKey (or_str (ctx_worldId context) "") →
                secretCache s' !! k = secretCache s !! k)
        ∧ ∀ k, k ≠ or_str (ctx_worldId context) "" → worlds s' !! k = worlds s !! k
    | Luser =>
        env s' = env s ∧ worlds s' = worlds s ∧ secretCache s' = secretCache s
    end.
Proof.
  unfold setAtLevel, throw. destruct (ctx_level context).
  - unfold setGlobalSecret, bind, modify, ret.
    destruct (updateEnvVar _ _ _ _); intros [= <- _]; simpl;
      (split; [done|]); (split; [done|]); (split; [done|]); [|done].
    intros k Hk. by rewrite lookup_insert_ne.
  - destruct (truthy (ctx_worldId context)); [|by intros [= <- _]].
    unfold setWorldSecret, bind, gets, updateWorld, modify, ret, throw.
    destruct (getWorld _ s) as [world|] eqn:Hworld; [|by intros [= <- _]].
    destruct (finalValueOf value config s) as [s1 [finalValue|message]] eqn:Hfinal.
    + apply finalValueOf_ok in Hfinal as (_ & _ & Hcache & Hworlds & Hcomps & Henv).
      intros [= <- _]. simpl. rewrite Hcache, Hworlds, Hcomps, Henv.
      split; [|split; [done|]; split; [done|]; split].
      * intros worldId. unfold rolesOf. simpl.
        destruct (decide (worldId = or_str (ctx_worldId context) "")) as [->|Hne].
        -- rewrite lookup_insert_eq. unfold getWorld in Hworld.
           rewrite Hworld. simpl.
           by destruct (world_metadata world).
        -- by rewrite lookup_insert_ne, Hworlds.
      * intros k Hk. by rewrite lookup_insert_ne.
      * intros k Hk. by rewrite lookup_insert_ne.
    + intros [= <- _].
      unfold finalValueOf, bind, ret in Hfinal.
      destruct (nullish _ _); [|done].
      destruct (encrypt value s) as [s2 [e|message']] eqn:Henc; [done|].
      injection Hfinal as <- _.
      assert (worlds s2 = worlds s ∧ components s2 = components s
              ∧ secretCache s2 = secretCache s ∧ env s2 = env s) as (Hw & Hc & Hs & He).
      { revert Henc. destruct value; simpl; unfold throw; try by intros [= <- _].
        destruct (gcm_seal _ _ _). by intros [= <- _]. }
      unfold rolesOf. rewrite Hw, Hc, Hs, He. done.
  - destruct (truthy (ctx_userId context)); [|by intros [= <- _]].
    unfold setUserSecret, bind, gets, updateComponent, createComponent, modify, ret.
    destruct (finalValueOf value config s) as [s1 [finalValue|message]] eqn:Hfinal.
    + apply finalValueOf_ok in Hfinal as (_ & _ & Hcache & Hworlds & Hcomps & Henv).
      destruct (find_first _ _); intros [= <- _]; simpl;
        unfold rolesOf; simpl; by rewrite Hcache, Hworlds, Henv.
    + intros [= <- _].
      unfold finalValueOf, bind, ret in Hfinal.
      destruct (nullish _ _); [|done].
      destruct (encrypt value s) as [s2 [e|message']] eqn:Henc; [done|].
      injection Hfinal as <- _.
      assert (worlds s2 = worlds s ∧ secretCache s2 = secretCache s ∧ env s2 = env s)
        as (Hw & Hs & He).
      { revert Henc. destruct value; simpl; unfold throw; try by intros [= <- _].
        destruct (gcm_seal _ _ _). by intros [= <- _]. }
      unfold rolesOf. by rewrite Hw, Hs, He.
Qed.

Lemma rolesKept_trans s1 s2 s3 : rolesKept s1 s2 → rolesKept s2 s3 → rolesKept s1 s3.
Proof.
  intros [Ha Hr] [Ha' Hr']. split; [congruence|].
  intros worldId. by rewrite Hr', Hr.
Qed.

Lemma rolesKept_permission key action context s s' :
  rolesKept s s' →
  checkPermission key action context s' = checkPermission key action context s.
Proof. intros [Ha Hr]. by apply checkPermission_rolesOf. Qed.

Lemma set_rolesKept key value context config s s' r :
  set key value context config s = (s', r) → rolesKept s s'.
Proof.
  rewrite set_run. destruct (checkPermission key Awrite context s);
    [|by intros [= <- _]].
  destruct (validationFailure key value config); [by intros [= <- _]|].
  destruct (setAtLevel _ _ _ _ _) as [s2 r2] eqn:Hset.
  pose proof (setAtLevel_kept _ _ _ _ _ _ _ Hset) as (_ & Hagent & _).
  apply setAtLevel_frame in Hset as [Hroles _].
  destruct r2; intros [= <- _]; (split; [exact Hagent|exact Hroles]).
Qed.

Lemma get_rolesKept key context s s' r :
  get key context s = (s', r) → rolesKept s s'.
Proof.
  destruct (get_logged key context s)
    as (s1 & r1 & -> & (_ & Hworlds & _) & Hagent & _).
  intros [= <- _]. split; [done|]. intros worldId. unfold rolesOf. by rewrite Hworlds.
Qed.

Lemma updateSecretConfig_rolesKept key context config s s' r :
  updateSecretConfig key context config s = (s', r) → rolesKept s s'.
Proof.
  unfold updateSecretConfig, bind, ret.
  destruct (get key context s) as [s1 [[v|]|message]] eqn:Hget;
    apply get_rolesKept in Hget.
  - intros Hset. apply set_rolesKept in Hset. by eapply rolesKept_trans.
  - by intros [= <- _].
  - by intros [= <- _].
Qed.

Lemma grantAccess_rolesKept key context grantee permissions s s' r :
  grantAccess key context grantee permissions s = (s', r) → rolesKept s s'.
Proof.
  unfold grantAccess, getSecretConfig, bind, gets, ret. intros Hrun.
  destruct (checkPermission key Ashare context s); simpl in Hrun;
    [|by injection Hrun as <- _].
  destruct (listSecrets context s) as [s1 [metadata|message]] eqn:Hlist;
    apply listSecrets_pure in Hlist as ->; [|by injection Hrun as <- _].
  destruct (metadata !! key) as [config|]; [|by injection Hrun as <- _].
  match type of Hrun with
  | context [pushShared ?k ?c ?p ?g s] =>
      destruct (pushShared k c p g s) as [s2 r2] eqn:Hpush
  end.
  assert (rolesKept s s2 ∧ r2 = Ok ()) as [Hkept ->].
  { revert Hpush. unfold pushShared, modify, ret.
    destruct (ctx_level context); by intros [= <- <-]. }
  apply updateSecretConfig_rolesKept in Hrun. by eapply rolesKept_trans.
Qed.

Lemma revokeAccess_rolesKept key context grantee s s' r :
  revokeAccess key context grantee s = (s', r) → rolesKept s s'.
Proof.
  unfold revokeAccess, getSecretConfig, bind, gets, ret. intros Hrun.
  destruct (checkPermission key Ashare context s); simpl in Hrun;
    [|by injection Hrun as <- _].
  destruct (listSecrets context s) as [s1 [metadata|message]] eqn:Hlist;
    apply listSecrets_pure in Hlist as ->; [|by injection Hrun as <- _].
  destruct (metadata !! key) as [config|]; [|by injection Hrun as <- _].
  by apply updateSecretConfig_rolesKept in Hrun.
Qed.

(** X1.  No operation of the store changes what [checkPermission]
    answers, for any key, action and context: not [set], and not
    [grantAccess] or [revokeAccess] either, whose permission lists the
    check never reads.  So after [grantAccess] to a grantee who is not
    the user, a [get] by that grantee at user level still returns null. *)
Theorem X1_grants_do_not_change_permissions key context s :
  (∀ value config key' action context',
     checkPermission key' action context' (fst (set key value context config s))
     = checkPermission key' action context' s)
  ∧ (∀ grantee permissions key' action context',
       checkPermission key' action context'
         (fst (grantAccess key context grantee permissions s))
       = checkPermission key' action context' s)
  ∧ (∀ grantee key' action context',
       checkPermission key' action context' (fst (revokeAccess key context grantee s))
       = checkPermission key' action context' s)
  ∧ (∀ grantee permissions,
       ctx_level context = Luser → ctx_userId context ≠ Some grantee →
       snd (get key
              (mkContext Luser (ctx_worldId context) (ctx_userId context)
                 (ctx_agentId context) (Some grantee))
              (fst (grantAccess key context grantee permissions s)))
       = Ok None).
Proof.
  split; [|split; [|split]].
  - intros value config key' action context'.
    destruct (set key value context config s) as [s' r] eqn:Hrun.
    apply set_rolesKept in Hrun. by apply rolesKept_permission.
  - intros grantee permissions key' action context'.
    destruct (grantAccess key context grantee permissions s) as [s' r] eqn:Hrun.
    apply grantAccess_rolesKept in Hrun. by apply rolesKept_permission.
  - intros grantee key' action context'.
    destruct (revokeAccess key context grantee s) as [s' r] eqn:Hrun.
    apply revokeAccess_rolesKept in Hrun. by apply rolesKept_permission.
  - intros grantee permissions Hlevel Hother. rewrite get_run.
    replace (checkPermission key Aread _ _) with false; [done|].
    unfold checkPermission. simpl. destruct (truthy (ctx_userId context)); [|done].
    symmetry. by apply bool_decide_eq_false.
Qed.

(** ** What a read depends on *)

Lemma decrypt_eta v s : decrypt v s = (s, snd (decrypt v s)).
Proof.
  destruct (decrypt v s) as [s' r] eqn:Hrun. by apply decrypt_pure in Hrun as ->.
Qed.

Lemma decrypt_dep v s s' :
  encryptionKey s' = encryptionKey s → snd (decrypt v s') = snd (decrypt v s).
Proof.
  intros Hkey. destruct v as [[| e |]|]; simpl; try done. rewrite Hkey.
  by destruct (gcm_open _ _ _ _).
Qed.

Lemma getGlobalSecret_dep key s s' :
  env s' = env s → secretCache s' !! "global" = secretCache s !! "global" →
  snd (getGlobalSecret key s') = snd (getGlobalSecret key s).
Proof.
  intros Henv Hcache. unfold getGlobalSecret, bind, gets, ret. cbv beta iota.
  rewrite Henv. destruct (truthy _); [done|]. cbv beta iota. by rewrite Hcache.
Qed.

Lemma getWorldSecret_dep key worldId s s' :
  secretCache s' !! cacheKey worldId = secretCache s !! cacheKey worldId →
  worlds s' !! worldId = worlds s !! worldId →
  encryptionKey s' = encryptionKey s →
  snd (getWorldSecret key worldId s') = snd (getWorldSecret key worldId s).
Proof.
  intros Hcache Hworld Hkey. unfold getWorldSecret, bind, gets, ret, getWorld.
  cbv beta iota. rewrite Hcache.
  destruct (secretCache s !! cacheKey worldId ≫= _) as [config|].
  - destruct (_ && _); [|done].
    rewrite (decrypt_eta _ s'), (decrypt_eta _ s), (decrypt_dep _ s s' Hkey).
    by destruct (snd (decrypt _ s)).
  - cbv beta iota. rewrite Hworld.
    destruct (((worlds s !! worldId ≫= _) ≫= _) ≫= _) as [[str|secretData]|];
      [by case_bool_decide| |done].
    destruct (nullish _ _); [|by destruct (value_truthy _)].
    rewrite (decrypt_eta _ s'), (decrypt_eta _ s), (decrypt_dep _ s s' Hkey).
    by destruct (snd (decrypt _ s)).
Qed.

Lemma getUserSecret_dep key userId s s' :
  components s' = components s → encryptionKey s' = encryptionKey s →
  snd (getUserSecret key userId s') = snd (getUserSecret key userId s).
Proof.
  intros Hcomps Hkey. unfold getUserSecret, bind, gets, ret, getComponents.
  cbv beta iota. rewrite Hcomps.
  destruct (find_first _ _ ≫= comp_data) as [secretData|]; [|done].
  destruct (_ && _ && _).
  { rewrite (decrypt_eta _ s'), (decrypt_eta _ s), (decrypt_dep _ s s' Hkey).
    by destruct (snd (decrypt _ s)). }
  destruct (_ && _); [|done].
  rewrite (decrypt_eta _ s'), (decrypt_eta _ s), (decrypt_dep _ s s' Hkey).
  by destruct (snd (decrypt _ s)).
Qed.

(** The value [get] returns is the value its level's reader returns,
    or null. *)
Lemma get_result key context s :
  snd (get key context s) =
    if checkPermission key Aread context s then
      match snd (getAtLevel key context s) with
      | Ok r => Ok r
      | Throw _ => Ok None
      end
    else Ok None.
Proof.
  rewrite get_run. destruct (checkPermission key Aread context s); [|done].
  replace (snd (getAtLevel key context
                  (set_accessLogs (pushLog (attempt key Aread context s)) s)))
    with (snd (getAtLevel key context s));
    [by destruct (snd (getAtLevel key context s))|].
  unfold getAtLevel, throw. destruct (ctx_level context).
  - by apply getGlobalSecret_dep.
  - destruct (truthy _); [|done]. by apply getWorldSecret_dep.
  - destruct (truthy _); [|done]. by apply getUserSecret_dep.
Qed.

(** ** Levels do not interfere *)

Lemma set_frame key value context config s s' r :
  set key value context config s = (s', r) →
  encryptionKey s' = encryptionKey s
  ∧ match ctx_level context with
    | Lglobal =>
        worlds s' = worlds s ∧ components s' = components s
        ∧ ∀ k, k ≠ "global" → secretCache s' !! k = secretCache s !! k
    | Lworld =>
        env s' = env s ∧ components s' = components s
        ∧ (∀ k, k ≠ cacheKey (or_str (ctx_worldId context) "") →
                secretCache s' !! k = secretCache s !! k)
        ∧ ∀ k, k ≠ or_str (ctx_worldId context) "" → worlds s' !! k = worlds s !! k
    | Luser =>
        env s' = env s ∧ worlds s' = worlds s ∧ secretCache s' = secretCache s
    end.
Proof.
  rewrite set_run.
  assert (∀ f, match ctx_level context with
               | Lglobal =>
                   worlds (set_accessLogs f s) = worlds s
                   ∧ components (set_accessLogs f s) = components s
                   ∧ ∀ k, k ≠ "global" →
                          secretCache (set_accessLogs f s) !! k = secretCache s !! k
               | Lworld =>
                   env (set_accessLogs f s) = env s
                   ∧ components (set_accessLogs f s) = components s
                   ∧ (∀ k, k ≠ cacheKey (or_str (ctx_worldId context) "") →
                           secretCache (set_accessLogs f s) !! k = secretCache s !! k)
                   ∧ ∀ k, k ≠ or_str (ctx_worldId context) "" →
                          worlds (set_accessLogs f s) !! k = worlds s !! k
               | Luser =>
                   env (set_accessLogs f s) = env s
                   ∧ worlds (set_accessLogs f s) = worlds s
                   ∧ secretCache (set_accessLogs f s) = secretCache s
               end) as Hsame by (intros f; by destruct (ctx_level context)).
  destruct (checkPermission key Awrite context s);
    [|intros [= <- _]; split; [done|apply Hsame]].
  destruct (validationFailure key value config);
    [intros [= <- _]; split; [done|apply Hsame]|].
  destruct (setAtLevel _ _ _ _ _) as [s2 r2] eqn:Hset.
  pose proof (setAtLevel_kept _ _ _ _ _ _ _ Hset) as (_ & _ & Hkey & _).
  apply setAtLevel_frame in Hset as [_ Hframe].
  destruct r2; intros [= <- _]; (split; [exact Hkey|]);
    destruct (ctx_level context); exact Hframe.
Qed.

Lemma cacheKey_not_global worldId : cacheKey worldId ≠ "global".
Proof. unfold cacheKey. done. Qed.

(** X2.  Writing at one level never changes what is read at another
    level: after [set] with a context of one level (whatever its
    outcome), [get] with a context of a different level returns what it
    returned before, for every key. *)
Theorem X2_levels_do_not_interfere key value context config s key' context' :
  ctx_level context' ≠ ctx_level context →
  snd (get key' context' (fst (set key value context config s)))
  = snd (get key' context' s).
Proof.
  intros Hlevels. destruct (set key value context config s) as [s' r] eqn:Hset.
  pose proof (set_rolesKept _ _ _ _ _ _ _ Hset) as Hroles.
  apply set_frame in Hset as [Hkey Hframe]. simpl.
  rewrite !get_result, (rolesKept_permission _ _ _ _ _ Hroles).
  destruct (checkPermission key' Aread context' s); [|done].
  cut (snd (getAtLevel key' context' s') = snd (getAtLevel key' context' s)).
  { by intros ->. }
  unfold getAtLevel, throw.
  destruct (ctx_level context') eqn:Hread, (ctx_level context) eqn:Hwrite;
    try done.
  - destruct Hframe as (Henv & _ & Hcache & _).
    apply getGlobalSecret_dep; [done|]. apply Hcache.
    intros Heq. by apply (cacheKey_not_global (or_str (ctx_worldId context) "")).
  - destruct Hframe as (Henv & _ & Hcache).
    apply getGlobalSecret_dep; [done|]. by rewrite Hcache.
  - destruct (truthy _); [|done]. destruct Hframe as (Hworlds & _ & Hcache).
    apply getWorldSecret_dep; [|by rewrite Hworlds|done].
    apply Hcache, cacheKey_not_global.
  - destruct (truthy _); [|done]. destruct Hframe as (_ & Hworlds & Hcache).
    apply getWorldSecret_dep; [by rewrite Hcache|by rewrite Hworlds|done].
  - destruct (truthy _); [|done]. destruct Hframe as (_ & Hcomps & _).
    by apply getUserSecret_dep.
  - destruct (truthy _); [|done]. destruct Hframe as (_ & Hcomps & _).
    by apply getUserSecret_dep.
Qed.

Lemma cacheKey_inj a b : cacheKey a = cacheKey b → a = b.
Proof. unfold cacheKey. cbn. by intros [= ?]. Qed.

(** X3.  Worlds do not interfere either: after [set] in one world,
    [get] in another world returns what it returned before. *)
Theorem X3_worlds_do_not_interfere key value context config s key' context' :
  ctx_level context = Lworld → ctx_level context' = Lworld →
  or_str (ctx_worldId context') "" ≠ or_str (ctx_worldId context) "" →
  snd (get key' context' (fst (set key value context config s)))
  = snd (get key' context' s).
Proof.
  intros Hwrite Hread Hother.
  destruct (set key value context config s) as [s' r] eqn:Hset.
  pose proof (set_rolesKept _ _ _ _ _ _ _ Hset) as Hroles.
  apply set_frame in Hset as [Hkey Hframe]. simpl.
  rewrite Hwrite in Hframe. destruct Hframe as (_ & _ & Hcache & Hworlds).
  rewrite !get_result, (rolesKept_permission _ _ _ _ _ Hroles).
  destruct (checkPermission key' Aread context' s); [|done].
  cut (snd (getAtLevel key' context' s') = snd (getAtLevel key' context' s)).
  { by intros ->. }
  unfold getAtLevel, throw. rewrite Hread. destruct (truthy _); [|done].
  apply getWorldSecret_dep; [|by apply Hworlds|done].
  apply Hcache. intros Heq. by apply Hother, cacheKey_inj.
Qed.

(** ** Stopping the service *)

Lemma setWorldSecret_persisted key value worldId config s s' stored :
  setWorldSecret key value worldId config s = (s', Ok stored) →
  ∃ finalValue,
    ((getWorld worldId s' ≫= world_metadata) ≫= meta_secrets) ≫= (λ ss, ss !! key)
    = Some (MSConfig (with_value config (Some finalValue)))
    ∧ storedAs value config (encryptionKey s) finalValue.
Proof.
  unfold setWorldSecret, bind, gets, updateWorld, modify, ret, throw.
  destruct (getWorld worldId s); [|done].
  destruct (finalValueOf value config s) as [s1 [finalValue|message]] eqn:Hfinal;
    [|done].
  apply finalValueOf_ok in Hfinal as (Hstored & _ & _).
  intros [= <- _]. exists finalValue. split; [|done].
  unfold getWorld. simpl. rewrite lookup_insert_eq. simpl.
  by rewrite lookup_insert_eq.
Qed.

(** X4.  [stop] empties the cache and the audit log and nothing else.
    A secret written at world or user level is therefore still returned
    by [get] after [stop] (it is read back from the world metadata or
    the component), although the world listing is now empty; a secret
    written at global level is gone, [get] answering only what the
    legacy environment variable holds. *)
Theorem X4_stop_keeps_world_and_user_secrets key v context config s s1 :
  AuthenticatedCipher →
  v ≠ "" →
  set key (VString v) context config s = (s1, Ok true) →
  accessLogs (fst (stop s1)) = []
  ∧ secretCache (fst (stop s1)) = ∅
  ∧ match ctx_level context with
    | Lglobal =>
        snd (get key context (fst (stop s1)))
        = Ok (if truthy (getEnvVar (env s1) key)
              then VString <$> getEnvVar (env s1) key else None)
    | Lworld =>
        snd (get key context (fst (stop s1))) = Ok (Some (VString v))
        ∧ snd (listSecrets context (fst (stop s1))) = Ok ∅
    | Luser =>
        snd (get key context (fst (stop s1))) = Ok (Some (VString v))
    end.
Proof.
  intros Hcipher Hv Hset. split; [done|]. split; [done|].
  apply set_true_inv in Hset as [Hwrite Hset].
  pose proof (setAtLevel_kept _ _ _ _ _ _ _ Hset) as (_ & _ & Hkey & _).
  simpl in Hkey.
  assert (value_or_null (Some (VString v)) = Some (VString v)) as Hplain.
  { unfold value_or_null. simpl. by rewrite bool_decide_eq_false_2. }
  rewrite get_result.
  revert Hwrite Hset. unfold checkPermission, setAtLevel, getAtLevel, listSecrets, throw.
  destruct (ctx_level context).
  - intros _ _. unfold getGlobalSecret, stop, bind, gets, modify, ret. simpl.
    by destruct (truthy _).
  - destruct (truthy (ctx_worldId context)); [|done]. intros _ Hset.
    pose proof (setWorldSecret_stored _ _ _ _ _ _ _ Hset) as (_ & _ & _ & _ & _ & [w Hw]).
    apply setWorldSecret_persisted in Hset as (finalValue & Hmeta & Hstored).
    unfold getWorld in *.
    replace (worlds (fst (stop s1))) with (worlds s1) by done. rewrite Hw.
    split; [|unfold bind, gets, ret, stop, modify; cbn; rewrite lookup_empty;
              cbn; by rewrite fmap_empty].
    replace (if bool_decide (Aread = Aread) then true else _) with true
      by (by rewrite bool_decide_eq_true_2).
    unfold getWorldSecret, bind, gets, ret, getWorld. cbv beta iota.
    replace (secretCache (fst (stop s1))) with (∅ : gmap string SecretMetadata) by done.
    rewrite lookup_empty. cbn [mbind option_bind]. cbv beta iota.
    replace (worlds (fst (stop s1))) with (worlds s1) by done. rewrite Hmeta.
    unfold storedAs in Hstored. simpl in *.
    destruct (nullish (config ≫= p_encrypted) true).
    + destruct Hstored as (plaintext & iv & [= <-] & ->). simpl.
      destruct (Hcipher (encryptionKey s) iv v) as [Htag Hopen].
      rewrite bool_decide_eq_false_2 by done. simpl.
      by rewrite Hkey, Hopen.
    + subst finalValue. simpl. by rewrite bool_decide_eq_false_2.
  - destruct (truthy (ctx_userId context)); [|done]. intros -> Hset.
    apply setUserSecret_stored in Hset as (row & fv & Hfind & _ & Hdata & Hstored).
    unfold getUserSecret, bind, gets, ret. cbv beta iota.
    replace (getComponents (or_str (ctx_userId context) "") (fst (stop s1)))
      with (getComponents (or_str (ctx_userId context) "") s1) by done.
    rewrite Hfind. simpl. rewrite Hdata. unfold storedAs in Hstored. simpl in *.
    destruct (nullish (config ≫= p_encrypted) true).
    + destruct Hstored as (plaintext & iv & [= <-] & ->). simpl.
      destruct (Hcipher (encryptionKey s) iv v) as [Htag Hopen].
      rewrite bool_decide_eq_false_2 by done. simpl.
      by rewrite Hkey, Hopen.
    + subst fv. simpl. by rewrite Hplain.
Qed.

(** ** What a write leaves behind *)

Lemma set_recordAt key value context config s s1 :
  set key value context config s = (s1, Ok true) →
  ∃ finalValue,
    recordAt key context s1
    = Some (with_value (fullConfigOf key value context config (clock s))
              (Some finalValue))
    ∧ match ctx_level context with
      | Lglobal => finalValue = value
      | Lworld =>
          truthy (ctx_worldId context) = true
          ∧ storedAs value (fullConfigOf key value context config (clock s))
              (encryptionKey s) finalValue
      | Luser => finalValue = value
      end.
Proof.
  intros Hset. apply set_true_inv in Hset as [_ Hset].
  revert Hset. unfold setAtLevel, recordAt, throw. destruct (ctx_level context).
  - intros Hset. apply setGlobalSecret_stored in Hset as (g & -> & Hkeyed).
    exists value. simpl. by rewrite Hkeyed.
  - destruct (truthy (ctx_worldId context)); [|done]. intros Hset.
    apply setWorldSecret_stored in Hset as (ws & fv & -> & Hkeyed & Hstored & _).
    exists fv. simpl. by rewrite Hkeyed.
  - destruct (truthy (ctx_userId context)); [|done]. intros Hset.
    apply setUserSecret_stored in Hset as (row & fv & -> & _ & Hdata & _).
    exists value. simpl. by rewrite Hdata.
Qed.

(** X5.  At global and at user level the record a successful [set]
    leaves behind carries the value as it was given, also when the
    record is marked encrypted: [setGlobalSecret] caches the
    configuration with its value and never encrypts, and
    [setUserSecret] stores the configuration, value included, as the
    metadata of the component beside the encrypted value. *)
Theorem X5_plaintext_kept_in_record key value context config s s1 :
  set key value context config s = (s1, Ok true) →
  ctx_level context ≠ Lworld →
  recordAt key context s1 ≫= cfg_value = Some value
  ∧ recordAt key context s1 ≫= cfg_encrypted
    = Some (nullish (config ≫= p_encrypted) true).
Proof.
  intros Hset Hlevel.
  apply set_recordAt in Hset as (finalValue & -> & Hfinal).
  destruct (ctx_level context); [by subst|done|by subst].
Qed.

(** ** Sharing *)

Lemma updateSecretConfig_true key context config s s' :
  updateSecretConfig key context config s = (s', Ok true) →
  ∃ record,
    recordAt key context s' = Some record
    ∧ cfg_permissions record = cfg_permissions config
    ∧ cfg_sharedWith record = None.
Proof.
  unfold updateSecretConfig, bind, ret.
  destruct (get key context s) as [s1 [[v|]|message]]; [|done..].
  intros Hset. apply set_recordAt in Hset as (finalValue & -> & _).
  by eexists.
Qed.

Lemma getSecretConfig_recordAt key context metadata s s' :
  snd (listSecrets context s) = Ok metadata →
  ctx_level context ≠ Luser →
  snd (getSecretConfig key context s') = Ok (strip <$> recordAt key context s').
Proof.
  unfold getSecretConfig, listSecrets, recordAt, bind, gets, ret, throw.
  destruct (ctx_level context); [| |done]; intros Hlist _.
  - simpl. rewrite lookup_fmap.
    by destruct (secretCache s' !! "global").
  - destruct (truthy (ctx_worldId context)); [|done]. simpl. rewrite lookup_fmap.
    by destruct (secretCache s' !! cacheKey _).
Qed.

Lemma checkAccess_result key context entityId permission s record :
  snd (getSecretConfig key context s) = Ok record →
  entityId ≠ "" →
  snd (checkAccess key context None (Some entityId) permission s)
  = Ok (match (record ≫= cfg_permissions) ≫= (λ ps, grantedTo ps entityId) with
        | Some entry => bool_decide (permission ∈ perm_permissions entry)
        | None => false
        end).
Proof.
  intros Hconfig Hentity. unfold checkAccess, bind.
  destruct (getSecretConfig key context s) as [s1 r] eqn:Hrun.
  simpl in Hconfig. subst r. unfold ret.
  destruct (record ≫= cfg_permissions) as [ps|]; [|done]. simpl.
  unfold grantedTo. destruct (bool_decide (entityId = "")) eqn:Hempty.
  { by apply bool_decide_eq_true_1 in Hempty. }
  cbn [negb]. unfold truthy. rewrite Hempty. cbn [negb].
  by destruct (find_first _ ps).
Qed.

Lemma grantedTo_app ps entry entityId :
  grantedTo (ps ++ [entry]) entityId =
    match grantedTo ps entityId with
    | Some earlier => Some earlier
    | None => if bool_decide (perm_entityId entry = entityId) then Some entry else None
    end.
Proof.
  unfold grantedTo. induction ps as [|p ps IH]; simpl.
  - case_bool_decide as H1; case_bool_decide as H2; naive_solver.
  - by destruct (bool_decide (Some (perm_entityId p) = Some entityId)).
Qed.

Lemma grantedTo_revoked ps entityId :
  grantedTo (filter (λ p, perm_entityId p ≠ entityId) ps) entityId = None.
Proof.
  unfold grantedTo. induction ps as [|p ps IH]; [done|].
  rewrite filter_cons. case_decide as Hp; [|done]. simpl.
  rewrite bool_decide_eq_false_2 by naive_solver. done.
Qed.

(** X6.  When [grantAccess] returns true the record is rewritten
    through [set]: its permissions are those the listing showed, with
    the new entry appended, and its [sharedWith] list is gone ([set]
    builds the record without one).  At global and world level
    [checkAccess] then answers for the grantee from the first entry
    carrying their id, so an earlier grant is not widened by a later
    one. *)
Theorem X6_grant_appends_and_first_entry_wins key context grantee permissions s s' :
  grantAccess key context grantee permissions s = (s', Ok true) →
  ∃ config,
    snd (getSecretConfig key context s) = Ok (Some config)
    ∧ recordAt key context s' ≫= cfg_permissions
      = Some (default [] (cfg_permissions config)
              ++ [granted context grantee permissions s])
    ∧ recordAt key context s' ≫= cfg_sharedWith = None
    ∧ (ctx_level context ≠ Luser → grantee ≠ "" →
       ∀ permission,
         snd (checkAccess key context None (Some grantee) permission s')
         = Ok (bool_decide
                 (permission ∈
                    match grantedTo (default [] (cfg_permissions config)) grantee with
                    | Some earlier => perm_permissions earlier
                    | None => permissions
                    end))).
Proof.
  unfold grantAccess, getSecretConfig at 1, bind, gets, ret. intros Hrun.
  destruct (checkPermission key Ashare context s); simpl in Hrun; [|done].
  destruct (listSecrets context s) as [s1 [metadata|message]] eqn:Hlist;
    [|done].
  pose proof (listSecrets_pure _ _ _ _ Hlist) as ->.
  destruct (metadata !! key) as [config|] eqn:Hconfig; [|done].
  match type of Hrun with
  | context [pushShared ?k ?c ?p ?g s] =>
      destruct (pushShared_kept k c p g s) as (s2 & Hpush & Hkept);
      rewrite Hpush in Hrun
  end.
  apply updateSecretConfig_true in Hrun as (record & Hrecord & Hperms & Hshared).
  exists config. split.
  { unfold getSecretConfig, bind, ret. rewrite Hlist. simpl. by rewrite Hconfig. }
  rewrite Hrecord. simpl. rewrite Hperms, Hshared. simpl.
  split; [done|]. split; [done|].
  intros Hlevel Hgrantee permission.
  assert (snd (listSecrets context s) = Ok metadata) as Hlisted by (by rewrite Hlist).
  rewrite (checkAccess_result key context grantee permission s' (strip <$> Some record)).
  - simpl. rewrite Hperms. simpl. rewrite grantedTo_app.
    destruct (grantedTo _ grantee); [done|]. simpl.
    by rewrite bool_decide_eq_true_2.
  - rewrite <- Hrecord. by eapply getSecretConfig_recordAt.
  - done.
Qed.

(** X7.  When [revokeAccess] returns true the rewritten record keeps
    the permissions of everyone but the grantee and has no [sharedWith]
    list; at global and world level [checkAccess] then refuses the
    grantee every permission. *)
Theorem X7_revoke_removes_every_entry key context grantee s s' :
  revokeAccess key context grantee s = (s', Ok true) →
  ∃ config,
    snd (getSecretConfig key context s) = Ok (Some config)
    ∧ recordAt key context s' ≫= cfg_permissions
      = Some (filter (λ p, perm_entityId p ≠ grantee)
                (default [] (cfg_permissions config)))
    ∧ recordAt key context s' ≫= cfg_sharedWith = None
    ∧ (ctx_level context ≠ Luser → grantee ≠ "" →
       ∀ permission,
         snd (checkAccess key context None (Some grantee) permission s') = Ok false).
Proof.
  unfold revokeAccess, getSecretConfig at 1, bind, gets, ret. intros Hrun.
  destruct (checkPermission key Ashare context s); simpl in Hrun; [|done].
  destruct (listSecrets context s) as [s1 [metadata|message]] eqn:Hlist;
    [|done].
  pose proof (listSecrets_pure _ _ _ _ Hlist) as ->.
  destruct (metadata !! key) as [config|] eqn:Hconfig; [|done].
  apply updateSecretConfig_true in Hrun as (record & Hrecord & Hperms & Hshared).
  exists config. split.
  { unfold getSecretConfig, bind, ret. rewrite Hlist. simpl. by rewrite Hconfig. }
  rewrite Hrecord. simpl. rewrite Hperms, Hshared. simpl.
  split; [done|]. split; [done|].
  intros Hlevel Hgrantee permission.
  assert (snd (listSecrets context s) = Ok metadata) as Hlisted by (by rewrite Hlist).
  rewrite (checkAccess_result key context grantee permission s' (strip <$> Some record)).
  - simpl. rewrite Hperms. simpl. by rewrite grantedTo_revoked.
  - rewrite <- Hrecord. by eapply getSecretConfig_recordAt.
  - done.
Qed.

(** ** Reading the audit log *)

Lemma pushLog_newest e l : e ∈ pushLog e l.
Proof.
  rewrite pushLog_spec. unfold slice_last. rewrite length_app. simpl.
  rewrite drop_app_le by lia. apply elem_of_app. right. apply list_elem_of_here.
Qed.

Lemma pushLog_keeps e e' l : e' ∈ pushLog e' l → e' ∈ pushLog e (pushLog e' l).
Proof.
  intros _. pose proof (pushLog_length e' l) as Hbound. revert Hbound.
  rewrite (pushLog_spec e' l). unfold slice_last at 1 2. rewrite length_app. simpl.
  rewrite drop_app_le by lia. set (kept := drop _ l). intros Hbound.
  rewrite pushLog_spec. unfold slice_last. rewrite !length_app. simpl.
  rewrite length_app in Hbound. simpl in Hbound.
  rewrite <- (assoc_L (++)). rewrite drop_app_le by lia.
  apply elem_of_app. right. apply list_elem_of_here.
Qed.

Lemma attempt_retrievable key action context s s' :
  attempt key action context s ∈ accessLogs s' →
  attempt key action context s ∈ getAccessLogs key (Some context) s'.
Proof.
  intros Hin. unfold getAccessLogs. apply list_elem_of_filter. split; [|done].
  simpl. rewrite !bool_decide_eq_true_2 by done. simpl.
  by rewrite !orb_true_r.
Qed.

(** X8.  The entry a call of [get] or [set] writes first is returned by
    [getAccessLogs] for the same key and context right after the call,
    whatever the call's outcome and however full the log was.
    [getAccessLogs] returns only entries of the log, all of them for
    the key asked, and at the level of the context when one is given. *)
Theorem X8_attempts_are_retrievable key context s :
  attempt key Aread context s
    ∈ getAccessLogs key (Some context) (fst (get key context s))
  ∧ (∀ value config,
       attempt key Awrite context s
         ∈ getAccessLogs key (Some context) (fst (set key value context config s)))
  ∧ (∀ key' filterContext s' log,
       log ∈ getAccessLogs key' filterContext s' →
       log ∈ accessLogs s' ∧ log_secretKey log = key'
       ∧ ∀ c, filterContext = Some c → ctx_level (log_context log) = ctx_level c).
Proof.
  split; [|split].
  - apply attempt_retrievable.
    destruct (get_logged key context s) as (s' & r & -> & _ & _ & _ & _ & Hlog).
    simpl. destruct Hlog as [[_ ->]|[_ [message ->]]].
    + apply pushLog_newest.
    + apply pushLog_keeps, pushLog_newest.
  - intros value config. apply attempt_retrievable.
    destruct (set_logged key value context config s)
      as (s' & stored & -> & _ & _ & _ & Hlog).
    simpl. destruct Hlog as [(_ & _ & ->)|[_ [message ->]]].
    + apply pushLog_newest.
    + apply pushLog_keeps, pushLog_newest.
  - intros key' filterContext s' log. unfold getAccessLogs.
    rewrite list_elem_of_filter. intros [Hkeep Hin]. split; [done|].
    apply andb_true_iff in Hkeep as [Hkey Hcontext].
    apply bool_decide_eq_true_1 in Hkey. split; [done|].
    intros c ->. apply andb_true_iff in Hcontext as [Hcontext _].
    apply andb_true_iff in Hcontext as [Hlevel _].
    by apply bool_decide_eq_true_1 in Hlevel.
Qed.

(** ** Encryption *)

(** X20.  [encrypt] seals a string under the service key with the next
    initialisation vector drawn and labels the payload aes-256-gcm,
    key id default; nothing but the draw counter changes.  [decrypt] of
    that payload gives the string back, and [decrypt] of a bare string,
    the form of records written before encryption, returns it as it
    is. *)
Theorem X20_encrypt_then_decrypt v s :
  AuthenticatedCipher →
  ∃ e,
    encrypt (VString v) s = (set_drawn (S (drawn s)) s, Ok e)
    ∧ enc_iv e = randomBytes (drawn s)
    ∧ enc_algorithm e = "aes-256-gcm" ∧ enc_keyId e = "default"
    ∧ (∀ s', encryptionKey s' = encryptionKey s →
             decrypt (Some (VEncrypted e)) s' = (s', Ok v))
    ∧ decrypt (Some (VString v)) s = (s, Ok v).
Proof.
  intros Hcipher. unfold encrypt.
  destruct (Hcipher (encryptionKey s) (randomBytes (drawn s)) v) as [Htag Hopen].
  destruct (gcm_seal (encryptionKey s) (randomBytes (drawn s)) v)
    as [encrypted authTag] eqn:Hseal.
  eexists. split; [reflexivity|]. simpl in *.
  split; [done|]. split; [done|]. split; [done|]. split; [|done].
  intros s' ->. unfold truthy. rewrite bool_decide_eq_false_2 by done.
  simpl. by rewrite Hopen.
Qed.


End StoreFrames.


(** * The life of a form: ports, tunnels, sessions *)

Section FormLifecycle.
Context `{secretStore : SecretStore} `{formHost : FormHost}.

(** ** Ports *)

Lemma skipBound_spec fuel port (bound lower : gset N) :
  lower ⊆ bound →
  (∀ x, x ∈ lower → (x < port)%N) →
  size bound ≤ fuel + size lower →
  (skipBound fuel port bound ∉ bound)
  ∧ (port ≤ skipBound fuel port bound)%N
  ∧ ∀ x, (port ≤ x < skipBound fuel port bound)%N → x ∈ bound.
Proof.
  revert port lower. induction fuel as [|fuel IH]; intros port lower Hsub Hlow Hsize.
  - simpl. split; [|split; [lia|intros x Hx; lia]].
    assert (lower = bound) as Heq by (apply set_subseteq_size_eq; [done|lia]).
    intros Hin. rewrite <- Heq in Hin. apply Hlow in Hin. lia.
  - simpl. case_bool_decide as Hin; [|split; [done|split; [lia|intros x Hx; lia]]].
    destruct (IH (N.succ port) ({[port]} ∪ lower)) as (Hfree & Hle & Hbetween).
    + set_solver.
    + intros x [->%elem_of_singleton|Hx%Hlow]%elem_of_union; lia.
    + rewrite size_union, size_singleton; [lia|].
      intros x ->%elem_of_singleton Hx%Hlow. lia.
    + split; [done|]. split; [lia|]. intros x Hx.
      destruct (decide (x = port)) as [->|Hne]; [done|]. apply Hbetween. lia.
Qed.

(** X9.  [getAvailablePort] returns a port no server is bound to: the
    first one from [nextPort] on, every port it passed over being bound.
    It leaves [nextPort] just above the port returned, so the port of a
    later call is larger. *)
Theorem X9_port_is_free s :
  let port := snd (getAvailablePort s) in
  let s' := fst (getAvailablePort s) in
  (port ∉ servers s)
  ∧ (nextPort s ≤ port)%N
  ∧ (∀ x, (nextPort s ≤ x < port)%N → x ∈ servers s)
  ∧ nextPort s' = N.succ port
  ∧ (port < snd (getAvailablePort s'))%N.
Proof.
  unfold getAvailablePort. simpl.
  destruct (skipBound_spec (size (servers s)) (nextPort s) (servers s) ∅)
    as (Hfree & Hle & Hbetween); [set_solver|set_solver|lia|].
  split; [done|]. split; [done|]. split; [done|]. split; [done|].
  destruct (skipBound_spec (size (servers s))
              (N.succ (skipBound (size (servers s)) (nextPort s) (servers s)))
              (servers s) ∅) as (_ & Hnext & _); [set_solver|set_solver|lia|].
  lia.
Qed.

(** ** Tunnels *)

Lemma afterClose_twice tunnel :
  (afterClose tunnel ≫= afterClose) = afterClose tunnel.
Proof.
  unfold afterClose. destruct (ngrok_disconnect (tunnel_url tunnel)) eqn:Hclose; [done|].
  simpl. by rewrite Hclose.
Qed.

Lemma closeTunnel_tunnels tunnelId s k :
  tunnels (closeTunnel tunnelId s) !! k
  = if bool_decide (k = tunnelId) then tunnels s !! k ≫= afterClose
    else tunnels s !! k.
Proof.
  unfold closeTunnel, afterClose. case_bool_decide as Hk.
  - subst k. destruct (tunnels s !! tunnelId) as [tunnel|] eqn:Htunnel;
      [|by rewrite Htunnel].
    simpl. destruct (ngrok_disconnect _); simpl; [by rewrite lookup_delete_eq|done].
  - destruct (tunnels s !! tunnelId) as [tunnel|]; [|done].
    destruct (ngrok_disconnect _); simpl; [by rewrite lookup_delete_ne|done].
Qed.

Lemma closeTunnel_only tunnelId s : onlyTunnels s (closeTunnel tunnelId s).
Proof.
  unfold closeTunnel, onlyTunnels. destruct (tunnels s !! tunnelId); [|done].
  by destruct (ngrok_disconnect _).
Qed.

Lemma closeTunnels_lookup ids s k :
  tunnels (foldl (λ acc id, closeTunnel id acc) s ids) !! k
  = if bool_decide (k ∈ ids) then tunnels s !! k ≫= afterClose
    else tunnels s !! k.
Proof.
  revert s. induction ids as [|id ids IH]; intros s; [done|].
  simpl. rewrite IH, closeTunnel_tunnels.
  destruct (decide (k = id)) as [->|Hne].
  - rewrite (bool_decide_eq_true_2 (id = id)) by done.
    rewrite (bool_decide_eq_true_2 (id ∈ id :: ids)) by apply list_elem_of_here.
    case_bool_decide; [|done].
    destruct (tunnels s !! id) as [tunnel|]; [|done]. simpl. apply afterClose_twice.
  - rewrite (bool_decide_eq_false_2 (k = id)) by done.
    rewrite (bool_decide_ext (k ∈ id :: ids) (k ∈ ids)); [done|].
    rewrite elem_of_cons. naive_solver.
Qed.

Lemma closeTunnels_only ids s :
  onlyTunnels s (foldl (λ acc id, closeTunnel id acc) s ids).
Proof.
  revert s. induction ids as [|id ids IH]; intros s; [done|].
  simpl. specialize (IH (closeTunnel id s)).
  pose proof (closeTunnel_only id s) as Hstep. unfold onlyTunnels in *.
  destruct IH as (-> & -> & -> & -> & -> & -> & ->). done.
Qed.

(** X10.  [cleanupExpiredTunnels] closes exactly the tunnels whose
    deadline has passed and [stop] closes them all; a tunnel whose
    disconnect fails stays in the table in both cases.  Neither touches
    anything but the tunnel table. *)
Theorem X10_tunnel_sweeps s tunnelId :
  getTunnel tunnelId (cleanupExpiredTunnels s)
  = getTunnel tunnelId s
      ≫= (λ tunnel, if bool_decide (tunnel_expiresAt tunnel ≤ now s)%N
                    then afterClose tunnel else Some tunnel)
  ∧ getTunnel tunnelId (stopTunnels s) = getTunnel tunnelId s ≫= afterClose
  ∧ onlyTunnels s (cleanupExpiredTunnels s)
  ∧ onlyTunnels s (stopTunnels s).
Proof.
  unfold getTunnel, cleanupExpiredTunnels, stopTunnels.
  split; [|split; [|split; apply closeTunnels_only]].
  - rewrite closeTunnels_lookup.
    destruct (tunnels s !! tunnelId) as [tunnel|] eqn:Htunnel; simpl.
    + destruct (decide (tunnel_expiresAt tunnel ≤ now s)%N) as [Hdue|Hdue].
      * rewrite (bool_decide_eq_true_2 (tunnel_expiresAt tunnel ≤ now s)%N) by done.
        rewrite bool_decide_eq_true_2; [done|].
        apply list_elem_of_omap. exists (tunnelId, tunnel).
        split; [by apply elem_of_map_to_list|]. by rewrite bool_decide_eq_true_2.
      * rewrite (bool_decide_eq_false_2 (tunnel_expiresAt tunnel ≤ now s)%N) by done.
        rewrite bool_decide_eq_false_2; [done|].
        intros Hin. apply list_elem_of_omap in Hin as ([id other] & Hin & Hsome).
        apply elem_of_map_to_list in Hin. case_bool_decide; [|done].
        by simplify_eq.
    + by case_bool_decide.
  - rewrite closeTunnels_lookup.
    destruct (tunnels s !! tunnelId) as [tunnel|] eqn:Htunnel; simpl.
    + rewrite bool_decide_eq_true_2; [done|].
      apply list_elem_of_fmap. exists (tunnelId, tunnel).
      split; [done|]. by apply elem_of_map_to_list.
    + by case_bool_decide.
Qed.

(** X11.  A tunnel is created with a lifetime of [duration]
    milliseconds, or of thirty minutes when [duration] is missing or
    zero.  [isTunnelActive] answers true strictly before the deadline;
    [extendTunnel] moves the deadline by the time given and answers
    false, changing nothing, for an id that is not in the table. *)
Theorem X11_tunnel_lifetime port purpose duration s s1 tunnelId url :
  createTunnel port purpose duration s = (s1, Ok (tunnelId, url)) →
  let lifetime := or_ms duration DEFAULT_TUNNEL_DURATION in
  getTunnel tunnelId s1
  = Some (mkTunnel tunnelId url port (now s) (now s + lifetime)%N purpose)
  ∧ (∀ ms, isTunnelActive tunnelId (step (Elapse ms) s1)
           = bool_decide (ms < lifetime)%N)
  ∧ (∀ extra ms,
       snd (extendTunnel tunnelId extra s1) = true
       ∧ isTunnelActive tunnelId (step (Elapse ms) (fst (extendTunnel tunnelId extra s1)))
         = bool_decide (ms < lifetime + extra)%N)
  ∧ (∀ other extra, getTunnel other s1 = None →
       extendTunnel other extra s1 = (s1, false)).
Proof.
  unfold createTunnel. destruct (ngrok_connect port) as [connected|message]; [|done].
  intros [= <- <- <-]. simpl.
  unfold getTunnel, isTunnelActive, extendTunnel. simpl.
  rewrite lookup_insert_eq. simpl.
  split; [done|]. split; [|split].
  - intros ms. apply bool_decide_ext. lia.
  - intros extra ms. split; [done|]. simpl. rewrite lookup_insert_eq.
    apply bool_decide_ext. simpl. lia.
  - intros other extra Hother. by rewrite Hother.
Qed.


(** ** Closing a session *)

Lemma closeSession_sessions sessionId s k :
  sessions (closeSession sessionId s) !! k
  = if bool_decide (k = sessionId)
    then match getSession sessionId s with
         | Some _ => None
         | None => sessions s !! k
         end
    else sessions s !! k.
Proof.
  unfold closeSession. destruct (getSession sessionId s) as [session|].
  - assert (sessions (closeTunnel (session_tunnelId session) s) = sessions s) as Hkept
      by apply closeTunnel_only.
    simpl. destruct (decide (k = sessionId)) as [->|Hk].
    + rewrite (bool_decide_eq_true_2 (sessionId = sessionId)) by done.
      case_bool_decide; simpl; by rewrite lookup_delete_eq.
    + rewrite (bool_decide_eq_false_2 (k = sessionId)) by done.
      case_bool_decide; simpl; rewrite lookup_delete_ne by done; by rewrite Hkept.
  - by case_bool_decide.
Qed.

Lemma closeSession_servers sessionId s port :
  port ∈ servers (closeSession sessionId s) ↔
  port ∈ servers s
  ∧ ∀ session, getSession sessionId s = Some session → port ≠ session_port session.
Proof.
  unfold closeSession. destruct (getSession sessionId s) as [session|].
  - assert (servers (closeTunnel (session_tunnelId session) s) = servers s) as Hkept
      by apply closeTunnel_only.
    simpl. case_bool_decide as Hbound; simpl; rewrite Hkept in *.
    + rewrite elem_of_difference, elem_of_singleton. naive_solver.
    + split; [|naive_solver]. intros Hin. split; [done|].
      intros ? [= <-] ->. done.
  - naive_solver.
Qed.

Lemma closeSession_tunnels sessionId s k :
  tunnels (closeSession sessionId s) !! k
  = match getSession sessionId s with
    | Some session =>
        if bool_decide (k = session_tunnelId session)
        then tunnels s !! k ≫= afterClose else tunnels s !! k
    | None => tunnels s !! k
    end.
Proof.
  unfold closeSession. destruct (getSession sessionId s) as [session|]; [|done].
  simpl. rewrite <- closeTunnel_tunnels. by case_bool_decide.
Qed.

(** X12.  [closeSession] does nothing for an id that is not
    registered.  For a registered one it unregisters the session and
    unbinds its port whether or not the tunnel could be closed: a
    tunnel whose disconnect fails stays in the tunnel table, with no
    session left to close it again.  Other sessions and ports are not
    touched, the session object keeps its status, and closing twice is
    closing once. *)
Theorem X12_closeSession_effects sessionId s :
  match getSession sessionId s with
  | None => closeSession sessionId s = s
  | Some session =>
      getSession sessionId (closeSession sessionId s) = None
      ∧ (session_port session ∉ servers (closeSession sessionId s))
      ∧ (∀ port, port ≠ session_port session →
                 port ∈ servers (closeSession sessionId s) ↔ port ∈ servers s)
      ∧ getTunnel (session_tunnelId session) (closeSession sessionId s)
        = getTunnel (session_tunnelId session) s ≫= afterClose
      ∧ (∀ other, other ≠ sessionId →
                  getSession other (closeSession sessionId s) = getSession other s)
      ∧ heap (closeSession sessionId s) = heap s
      ∧ store (closeSession sessionId s) = store s
  end
  ∧ closeSession sessionId (closeSession sessionId s) = closeSession sessionId s.
Proof.
  split.
  - destruct (getSession sessionId s) as [session|] eqn:Hsession.
    + split; [apply closeSession_closed|].
      split; [rewrite closeSession_servers; naive_solver|].
      split; [intros port Hport; rewrite closeSession_servers; naive_solver|].
      split.
      { unfold getTunnel. rewrite closeSession_tunnels, Hsession.
        by rewrite bool_decide_eq_true_2. }
      split.
      { intros other Hother. unfold getSession.
        rewrite closeSession_sessions, closeSession_heap.
        by rewrite bool_decide_eq_false_2. }
      split; [apply closeSession_heap|].
      unfold closeSession. rewrite Hsession. simpl.
      case_bool_decide; simpl; apply closeTunnel_only.
    + unfold closeSession. by rewrite Hsession.
  - unfold closeSession at 1. by rewrite closeSession_closed.
Qed.

(** ** The session table *)

Lemma registered_weaken s s' :
  registered s →
  (∀ id r, sessions s' !! id = Some r → sessions s !! id = Some r) →
  length (heap s) ≤ length (heap s') →
  registered s'.
Proof.
  intros Hs Hsub Hlen id r Hid. apply lookup_lt_is_Some.
  apply Hsub, Hs, lookup_lt_is_Some in Hid. lia.
Qed.

Lemma closeSession_subset sessionId s id r :
  sessions (closeSession sessionId s) !! id = Some r → sessions s !! id = Some r.
Proof.
  rewrite closeSession_sessions. case_bool_decide; [|done].
  by destruct (getSession sessionId s).
Qed.

Lemma closeSession_registered sessionId s :
  registered s → registered (closeSession sessionId s).
Proof.
  intros Hs. apply (registered_weaken s); [done|apply closeSession_subset|].
  by rewrite closeSession_heap.
Qed.



Lemma createSecretForm_registered request callback s :
  registered s → registered (fst (createSecretForm request callback s)).
Proof.
  intros Hs. unfold createSecretForm, generateFormSchema, getAvailablePort, createTunnel.
  simpl. destruct (ngrok_connect _); simpl; [|done].
  intros id r. simpl. destruct (decide (id = nanoid (S (S (issued s))))) as [->|Hne].
  - rewrite lookup_insert_eq. intros [= <-].
    rewrite lookup_app_r by done. rewrite Nat.sub_diag. by eexists.
  - rewrite lookup_insert_ne by done. intros Hid. apply Hs in Hid as [session Hr].
    exists session. by apply lookup_app_l_Some.
Qed.



Lemma closeAll_sessions ids s k :
  registered s →
  sessions (foldl (λ acc id, closeSession id acc) s ids) !! k
  = if bool_decide (k ∈ ids) then None else sessions s !! k.
Proof.
  revert s. induction ids as [|id ids IH]; intros s Hs; [done|].
  simpl. rewrite IH by by apply closeSession_registered.
  rewrite closeSession_sessions.
  destruct (decide (k = id)) as [->|Hne].
  - rewrite (bool_decide_eq_true_2 (id = id)) by done.
    rewrite (bool_decide_eq_true_2 (id ∈ id :: ids)) by apply list_elem_of_here.
    case_bool_decide; [done|].
    unfold getSession. destruct (sessions s !! id) as [r|] eqn:Hid; [|done].
    simpl. by destruct (Hs id r Hid) as [session ->].
  - rewrite (bool_decide_eq_false_2 (k = id)) by done.
    rewrite (bool_decide_ext (k ∈ id :: ids) (k ∈ ids)); [done|].
    rewrite elem_of_cons. naive_solver.
Qed.

Lemma closeAll_servers ids s port :
  port ∈ servers (foldl (λ acc id, closeSession id acc) s ids) → port ∈ servers s.
Proof.
  revert s. induction ids as [|id ids IH]; intros s; [done|].
  simpl. intros Hin. apply IH in Hin. by apply closeSession_servers in Hin as [Hin _].
Qed.

Lemma closeAll_unbinds ids s sessionId session :
  sessionId ∈ ids → getSession sessionId s = Some session →
  session_port session ∉ servers (foldl (λ acc id, closeSession id acc) s ids).
Proof.
  revert s. induction ids as [|id ids IH]; intros s Hin Hsession.
  - by apply elem_of_nil in Hin.
  - simpl. destruct (decide (sessionId = id)) as [->|Hne].
    + intros Hbound. apply closeAll_servers, closeSession_servers in Hbound as [_ Hbound].
      by apply (Hbound session).
    + apply elem_of_cons in Hin as [?|Hin]; [done|]. apply IH; [done|].
      unfold getSession. rewrite closeSession_sessions, closeSession_heap.
      by rewrite bool_decide_eq_false_2.
Qed.

(** X14.  The sweep unregisters exactly the sessions that are past
    their deadline or completed, and keeps every other session as it
    is; it changes no session object and stores nothing.  After [stop]
    no session is registered and no port of a session that was
    registered is bound. *)
Theorem X14_sweep_and_stop s :
  registered s →
  (∀ sessionId,
     getSession sessionId (cleanupExpiredSessions s)
     = getSession sessionId s
         ≫= (λ session, if due s session then None else Some session))
  ∧ heap (cleanupExpiredSessions s) = heap s
  ∧ sessions (stopForms s) = ∅
  ∧ (∀ sessionId session,
       getSession sessionId s = Some session →
       session_port session ∉ servers (stopForms s)).
Proof.
  intros Hs. split; [|split; [apply closeAll_heap|split]].
  - intros sessionId. unfold getSession, cleanupExpiredSessions.
    rewrite closeAll_sessions, closeAll_heap by done.
    destruct (sessions s !! sessionId) as [r|] eqn:Hid; [|by case_bool_decide].
    destruct (Hs _ _ Hid) as [session Hr]. simpl. rewrite Hr. simpl.
    unfold due. destruct (_ || _) eqn:Hdue.
    + rewrite bool_decide_eq_true_2; [done|].
      apply list_elem_of_omap. exists (sessionId, r).
      split; [by apply elem_of_map_to_list|]. by rewrite Hr, Hdue.
    + rewrite bool_decide_eq_false_2; [done|].
      intros Hin. apply list_elem_of_omap in Hin as ([id r'] & Hin & Hsome).
      apply elem_of_map_to_list in Hin.
      destruct (heap s !! r') as [session'|] eqn:Hr'; [|done].
      destruct (bool_decide (session_expiresAt session' ≤ now s)%N
                || bool_decide (session_status session' = completed)) eqn:Hdue';
        [|done].
      injection Hsome as ->.
      rewrite Hid in Hin. injection Hin as <-. rewrite Hr in Hr'.
      injection Hr' as <-. by rewrite Hdue in Hdue'.
  - apply map_eq. intros k. unfold stopForms. rewrite closeAll_sessions by done.
    rewrite lookup_empty. case_bool_decide as Hk; [done|].
    destruct (sessions s !! k) as [r|] eqn:Hid; [|done].
    exfalso. apply Hk, list_elem_of_fmap. exists (k, r).
    split; [done|]. by apply elem_of_map_to_list.
  - intros sessionId session Hsession. unfold stopForms.
    apply (closeAll_unbinds _ _ sessionId); [|done].
    unfold getSession in Hsession.
    destruct (sessions s !! sessionId) as [r|] eqn:Hid; [|done].
    apply list_elem_of_fmap. exists (sessionId, r).
    split; [done|]. by apply elem_of_map_to_list.
Qed.

(** ** Deadlines *)

Lemma submitRoute_noneExpired r context body ip userAgent s :
  noneExpired s → noneExpired (fst (submitRoute r context body ip userAgent s)).
Proof.
  unfold noneExpired. intros Hs. unfold submitRoute, storeSubmittedSecrets.
  destruct (heap s !! r) as [session|] eqn:Hr; [|done].
  case_bool_decide as Hactive; [done|].
  assert (session_status session ≠ expired) as Hstatus.
  { by apply (Forall_lookup_1 _ _ _ _ Hs Hr). }
  destruct (fst (validateSubmission _ _)); [|done]. cbn [negb]. simpl.
  destruct (storeSecrets _ _ _ _) as [st [u|message]]; simpl.
  - destruct (session_callback session) as [callback|];
      [destruct (callback _)|]; simpl;
      case_bool_decide; simpl; rewrite ?closeSession_heap; simpl;
      repeat (apply Forall_insert; [|done]); done.
  - by apply Forall_insert.
Qed.

(** X15.  No event ever gives a session the status [expired]: a
    session object is created active and only ever becomes completed.
    The routes of a form look at the status alone, so an active session
    still serves its page, and its submit route does not answer 410,
    however long ago its deadline passed; only the sweep acts on the
    deadline. *)
Theorem X15_deadline_is_left_to_the_sweep s :
  (∀ events, noneExpired s → noneExpired (run events s))
  ∧ (∀ r session ms context body ip userAgent,
       heap s !! r = Some session → session_status session = active →
       snd (formRoute r (step (Elapse ms) s)) = Some (FormPage session)
       ∧ snd (submitRoute r context body ip userAgent (step (Elapse ms) s))
         ≠ Some Gone).
Proof.
  split.
  - intros events. revert s. unfold run.
    induction events as [|e events IH]; intros s Hs; [done|].
    simpl. apply IH. unfold noneExpired in *.
    destruct e as [request callback|r context request| | | | |]; simpl.
    + unfold createSecretForm, generateFormSchema, getAvailablePort, createTunnel.
      simpl. destruct (ngrok_connect _); simpl; [|done].
      apply Forall_app. split; [done|]. by apply Forall_singleton.
    + destruct request as [|body ip userAgent|]; simpl.
      * unfold formRoute. destruct (heap s !! r); [|done]. by case_bool_decide.
      * by apply submitRoute_noneExpired.
      * unfold statusRoute. by destruct (heap s !! r).
    + by rewrite closeSession_heap.
    + unfold cleanupExpiredSessions. by rewrite closeAll_heap.
    + unfold stopForms. by rewrite closeAll_heap.
    + by rewrite closeTunnel_heap.
    + done.
  - intros r session ms context body ip userAgent Hr Hactive.
    unfold formRoute, submitRoute, storeSubmittedSecrets. simpl. rewrite Hr.
    rewrite bool_decide_eq_false_2 by (by rewrite Hactive; intros ?).
    split; [done|].
    match goal with |- context [negb ?valid] => destruct valid end; [|done].
    cbn [negb].
    destruct (storeSecrets _ _ _ _) as [st [u|message]]; simpl; [|done].
    destruct (session_callback session) as [callback|];
      [destruct (callback _)|]; done.
Qed.

(** ** Creating a form *)

(** X16.  [createSecretForm] asks for a tunnel to the port
    [getAvailablePort] returns.  When the tunnel is refused, the call
    throws and no session, server or tunnel is added, but the port
    number is used up.  Otherwise the new session is registered under
    the id returned: it is active, has no submission, expires after
    [expiresIn] milliseconds (thirty minutes when missing or zero),
    allows [maxSubmissions] submissions (one when missing or zero), has
    one field per secret asked for, and is bound to a port that was
    free, to which its tunnel leads. *)
Theorem X16_createSecretForm_outcomes request callback s :
  let port := snd (getAvailablePort s) in
  let s' := fst (createSecretForm request callback s) in
  match ngrok_connect port with
  | Throw message =>
      snd (createSecretForm request callback s)
      = Throw ("Failed to create tunnel: " +:+ message)
      ∧ sessions s' = sessions s ∧ servers s' = servers s ∧ heap s' = heap s
      ∧ tunnels s' = tunnels s ∧ store s' = store s
      ∧ nextPort s' = N.succ port
  | Ok tunnelUrl =>
      ∃ session,
        heap s' = heap s ++ [session]
        ∧ snd (createSecretForm request callback s)
          = Ok (tunnelUrl +:+ "/form/" +:+ session_id session, session_id session)
        ∧ getSession (session_id session) s' = Some session
        ∧ session_status session = active
        ∧ session_submissions session = []
        ∧ session_expiresAt session
          = (now s + or_ms (req_expiresIn request) (30 * 60 * 1000))%N
        ∧ schema_maxSubmissions (session_schema session)
          = Some (or_num (req_maxSubmissions request) 1)
        ∧ field_name <$> schema_fields (session_schema session)
          = (λ secret, field_name (createFormField (sr_key secret) (sr_config secret)
                                     (sr_field secret)))
              <$> req_secrets request
        ∧ session_port session = port
        ∧ (port ∉ servers s)
        ∧ servers s' = {[port]} ∪ servers s
        ∧ (tunnel_port <$> getTunnel (session_tunnelId session) s') = Some port
        ∧ store s' = store s
  end.
Proof.
  destruct (skipBound_spec (size (servers s)) (nextPort s) (servers s) ∅)
    as (Hfree & _); [set_solver|set_solver|lia|].
  unfold createSecretForm, generateFormSchema, getAvailablePort, createTunnel in *.
  simpl in *.
  destruct (ngrok_connect _) as [tunnelUrl|message]; simpl; [|done].
  eexists. split; [reflexivity|]. simpl. split; [done|].
  unfold getSession. simpl. rewrite lookup_insert_eq. simpl.
  rewrite lookup_app_r by done. rewrite Nat.sub_diag. simpl.
  split; [done|]. split; [done|]. split; [done|].
  split; [done|]. split; [done|].
  split; [by rewrite <- list_fmap_compose|].
  split; [done|]. split; [done|]. split; [done|].
  split; [|done]. unfold getTunnel. simpl. by rewrite lookup_insert_eq.
Qed.

(** ** Validation *)

Lemma collectErrors_other fields data errors name :
  name ∉ field_name <$> fields →
  collectErrors fields data errors !! name = errors !! name.
Proof.
  revert errors. induction fields as [|f rest IH]; intros errors Hname; [done|].
  simpl in *. apply not_elem_of_cons in Hname as [Hne Hrest].
  rewrite IH by done. destruct (fieldError f data); [|done].
  by rewrite lookup_insert_ne.
Qed.

Lemma collectErrors_lookup fields data errors field :
  NoDup (field_name <$> fields) → field ∈ fields →
  errors !! field_name field = None →
  collectErrors fields data errors !! field_name field = fieldError field data.
Proof.
  revert errors. induction fields as [|f rest IH]; intros errors Hnames Hin Hfresh.
  - by apply elem_of_nil in Hin.
  - simpl in *. apply NoDup_cons in Hnames as [Hf Hrest].
    apply elem_of_cons in Hin as [->|Hin].
    + rewrite collectErrors_other by done.
      destruct (fieldError f data); [by rewrite lookup_insert_eq|done].
    + apply IH; [done..|].
      assert (field_name f ≠ field_name field) as Hne.
      { intros Heq. apply Hf. rewrite Heq. by apply list_elem_of_fmap_2. }
      destruct (fieldError f data); [by rewrite lookup_insert_ne|done].
Qed.

Lemma collectErrors_sound fields data errors name message :
  collectErrors fields data errors !! name = Some message →
  errors !! name = Some message
  ∨ ∃ field, field ∈ fields ∧ field_name field = name
             ∧ fieldError field data = Some message.
Proof.
  revert errors. induction fields as [|f rest IH]; intros errors Hfound; [by left|].
  simpl in Hfound. apply IH in Hfound as [Hfound|(field & Hin & Hname & Herr)].
  - destruct (fieldError f data) as [m|] eqn:Hf; [|by left].
    destruct (decide (field_name f = name)) as [Heq|Hne].
    + rewrite Heq, lookup_insert_eq in Hfound. injection Hfound as ->.
      right. exists f. split; [apply list_elem_of_here|done].
    + rewrite lookup_insert_ne in Hfound by done. by left.
  - right. exists field. split; [by apply list_elem_of_further|done].
Qed.

(** X17.  [validateSubmission] returns an error map exactly when the
    payload is invalid, and the payload is valid exactly when no field
    has an error.  Every entry of the map is the error of a field of
    that name; and when the field names of the schema are distinct, the
    map holds for each field precisely the error of that field. *)
Theorem X17_validation_errors schema data :
  let errors := default ∅ (snd (validateSubmission schema data)) in
  (fst (validateSubmission schema data) = true
   ↔ snd (validateSubmission schema data) = None)
  ∧ (fst (validateSubmission schema data) = true
     ↔ ∀ field, field ∈ schema_fields schema → fieldError field data = None)
  ∧ (∀ name message,
       errors !! name = Some message →
       ∃ field, field ∈ schema_fields schema ∧ field_name field = name
                ∧ fieldError field data = Some message)
  ∧ (NoDup (field_name <$> schema_fields schema) →
     ∀ field, field ∈ schema_fields schema →
              errors !! field_name field = fieldError field data).
Proof.
  assert (default ∅ (snd (validateSubmission schema data))
          = collectErrors (schema_fields schema) data ∅) as ->.
  { unfold validateSubmission. simpl. case_bool_decide as Hsize; [done|].
    simpl. symmetry. apply map_size_empty_iff. lia. }
  split; [|split; [|split]].
  - unfold validateSubmission. simpl. rewrite bool_decide_eq_true.
    case_bool_decide; split; (done || lia).
  - split.
    + intros Hvalid field Hin. destruct (fieldError field data) eqn:Herr; [|done].
      assert (fst (validateSubmission schema data) = false) as Hinvalid.
      { apply validateSubmission_invalid. exists field. rewrite Herr. eauto. }
      congruence.
    + intros Hclean. destruct (fst (validateSubmission schema data)) eqn:Hvalid; [done|].
      apply validateSubmission_invalid in Hvalid as (field & Hin & [message Herr]).
      rewrite Hclean in Herr; done.
  - intros name message Hfound.
    by apply collectErrors_sound in Hfound as [Hfound|Hfound].
  - intros Hnames field Hin. by apply collectErrors_lookup.
Qed.

(** ** Escaping *)

Lemma append_cons a (s1 s2 : string) : String a s1 +:+ s2 = String a (s1 +:+ s2).
Proof. reflexivity. Qed.

Lemma append_assoc (s1 s2 s3 : string) : (s1 +:+ s2) +:+ s3 = s1 +:+ (s2 +:+ s3).
Proof.
  induction s1 as [|a s1 IH]; [done|]. rewrite !append_cons. by rewrite IH.
Qed.

Lemma replaceAll_app c replacement s1 s2 :
  replaceAll c replacement (s1 +:+ s2)
  = replaceAll c replacement s1 +:+ replaceAll c replacement s2.
Proof.
  induction s1 as [|a s1 IH]; [done|]. rewrite append_cons. simpl. rewrite IH.
  destruct (Ascii.eqb a c); [|done]. by rewrite append_assoc.
Qed.

Lemma escapeHtml_app s1 s2 : escapeHtml (s1 +:+ s2) = escapeHtml s1 +:+ escapeHtml s2.
Proof. unfold escapeHtml. by rewrite !replaceAll_app. Qed.

Lemma escapeHtml_char a : escapeHtml (String a EmptyString) = escapeChar a.
Proof. by destruct a as [[] [] [] [] [] [] [] []]. Qed.

Lemma markupFree_app s1 s2 :
  markupFree (s1 +:+ s2) = markupFree s1 && markupFree s2.
Proof.
  induction s1 as [|a s1 IH]; [done|]. rewrite append_cons. simpl. rewrite IH.
  by rewrite andb_assoc.
Qed.

Lemma markupFree_char a : markupFree (escapeChar a) = true.
Proof. by destruct a as [[] [] [] [] [] [] [] []]. Qed.

(** X18.  The five replacements of [escapeHtml], made one after the
    other, amount to replacing each character of the input once: an
    ampersand the earlier replacement wrote is not escaped again.  The
    result contains no angle bracket and no quote of either kind. *)
Theorem X18_escapeHtml_escapes_once unsafe :
  escapeHtml unsafe = escapeEach unsafe
  ∧ markupFree (escapeHtml unsafe) = true.
Proof.
  assert (escapeHtml unsafe = escapeEach unsafe) as Heach.
  { induction unsafe as [|a unsafe IH]; [done|].
    change (String a unsafe) with (String a EmptyString +:+ unsafe).
    rewrite escapeHtml_app, escapeHtml_char, IH. done. }
  split; [done|]. rewrite Heach. clear Heach.
  induction unsafe as [|a unsafe IH]; [done|].
  simpl. by rewrite markupFree_app, markupFree_char, IH.
Qed.


(** ** Submissions and the limit *)

Lemma closeSession_store sessionId s : store (closeSession sessionId s) = store s.
Proof.
  unfold closeSession. destruct (getSession sessionId s) as [session|]; [|done].
  simpl. case_bool_decide; simpl;
    by destruct (closeTunnel_only (session_tunnelId session) s) as [Hstore _].
Qed.

(** X22.  The callback of a form runs last.  When it throws, the
    submission is answered with a 500 although its secrets are
    persisted and the submission is recorded; and when the submission
    was the last one allowed, the session is completed and closed all
    the same, so sending the form again is answered 410. *)
Theorem X22_callback_failure_comes_too_late r context body ip userAgent s session st'
    callback message :
  heap s !! r = Some session →
  session_status session = active →
  fst (validateSubmission (session_schema session) body) = true →
  storeSecrets (req_secrets (session_request session)) body context (store s)
    = (st', Ok ()) →
  session_callback session = Some callback →
  callback (submissionOf session body ip userAgent s) = Throw message →
  let s1 := fst (submitRoute r context body ip userAgent s) in
  let pushed :=
    session_submissions session ++ [submissionOf session body ip userAgent s] in
  let full :=
    bool_decide (or_num (schema_maxSubmissions (session_schema session)) 1
                 ≤ length pushed) in
  snd (submitRoute r context body ip userAgent s) = Some ServerError
  ∧ store s1 = st'
  ∧ heap s1 !! r
    = Some (with_progress session pushed (if full then completed else active))
  ∧ (full = true →
     getSession (session_id session) s1 = None
     ∧ ∀ context2 body2 ip2 userAgent2,
         submitRoute r context2 body2 ip2 userAgent2 s1 = (s1, Some Gone)).
Proof.
  intros Hsession Hactive Hvalid Hstore Hcallback Hthrows. cbv zeta.
  destruct (submit_persisted r context body ip userAgent s session st'
              Hsession Hactive Hvalid Hstore) as (Hstate & Hheap & _).
  split; [|split; [|split; [exact Hheap|]]].
  - unfold submitRoute, storeSubmittedSecrets, submissionOf in *.
    rewrite Hsession, Hactive, Hvalid.
    rewrite bool_decide_eq_false_2 by (by intros ?). cbn [negb]. simpl.
    rewrite Hstore. simpl. rewrite Hcallback. by rewrite Hthrows.
  - rewrite Hstate. case_bool_decide; [|done]. by rewrite closeSession_store.
  - intros Hfull. rewrite Hfull in Hstate, Hheap. split.
    + rewrite Hstate. apply closeSession_closed.
    + intros context2 body2 ip2 userAgent2. unfold submitRoute at 1.
      by rewrite Hheap.
Qed.

(** X23.  A submission that validates and persists is counted against
    [maxSubmissions] (one when missing or zero).  While the count stays
    below the limit the session remains active and registered, its
    server and tunnel in place; the submission that reaches the limit
    completes the session and unregisters it.  In both cases the store
    is the one persisting left. *)
Theorem X23_limit_is_counted r context body ip userAgent s session st' :
  heap s !! r = Some session →
  session_status session = active →
  fst (validateSubmission (session_schema session) body) = true →
  storeSecrets (req_secrets (session_request session)) body context (store s)
    = (st', Ok ()) →
  let s1 := fst (submitRoute r context body ip userAgent s) in
  let pushed :=
    session_submissions session ++ [submissionOf session body ip userAgent s] in
  store s1 = st'
  ∧ if bool_decide (or_num (schema_maxSubmissions (session_schema session)) 1
                    ≤ length pushed)
    then heap s1 !! r = Some (with_progress session pushed completed)
         ∧ getSession (session_id session) s1 = None
    else heap s1 !! r = Some (with_progress session pushed active)
         ∧ sessions s1 = sessions s ∧ servers s1 = servers s
         ∧ tunnels s1 = tunnels s.
Proof.
  intros Hsession Hactive Hvalid Hstore. cbv zeta.
  destruct (submit_persisted r context body ip userAgent s session st'
              Hsession Hactive Hvalid Hstore) as (Hstate & Hheap & _).
  split.
  { rewrite Hstate. case_bool_decide; [|done]. by rewrite closeSession_store. }
  destruct (bool_decide _) eqn:Hfull.
  - split; [exact Hheap|]. rewrite Hstate. apply closeSession_closed.
  - split; [exact Hheap|]. by rewrite Hstate.
Qed.


Lemma startedForms_registered (st : Store) : registered (startedForms secretStore st).
Proof. intros id r Hid. simpl in Hid. by rewrite lookup_empty in Hid. Qed.


End FormLifecycle.

(** * Forms over the secret manager *)

Section FormsOverManager.
Context `{host : Host} `{formHost : FormHost}.

Lemma sameSecrets_trans (s1 s2 s3 : State) :
  sameSecrets s1 s2 → sameSecrets s2 s3 → sameSecrets s1 s3.
Proof.
  intros (H1 & H2 & H3 & H4) (H1' & H2' & H3' & H4').
  unfold sameSecrets. by rewrite H1', H2', H3', H4'.
Qed.

Lemma storeSecrets_denied secrets data context (st : State) :
  (∀ key, checkPermission key Awrite context st = false) →
  ∃ st', @storeSecrets manager_store secrets data context st = (st', Ok ())
         ∧ sameSecrets st st' ∧ agentId st' = agentId st.
Proof.
  revert st. induction secrets as [|secret rest IH]; intros st Hdenied; simpl.
  - by eexists.
  - destruct (truthy (data !! sr_key secret)); [|by apply IH].
    destruct (set_denied (sr_key secret) (VString (or_str (data !! sr_key secret) ""))
                context (Some (sr_config secret)) st (Hdenied _))
      as (st1 & Hset & Hsame).
    rewrite Hset. pose proof (set_rolesKept _ _ _ _ _ _ _ Hset) as Hroles.
    destruct (IH st1) as (st' & -> & Hsame' & Hagent).
    { intros key. by rewrite (rolesKept_permission _ _ _ _ _ Hroles). }
    exists st'. split; [done|]. split; [by eapply sameSecrets_trans|].
    destruct Hroles as [Hagent1 _]. congruence.
Qed.

(** X19.  A form created by the [REQUEST_SECRET_FORM] action stores its
    submission in the name of the agent, for the user who sent the
    message.  Unless that user is the agent itself, every [set] is
    refused by the permission check; the form service does not look at
    what [set] returns, so persisting succeeds with nothing stored, and
    a valid submission to an active session whose callback returns is
    answered with success while no secret, world, component or
    environment value has changed. *)
Theorem X19_action_forms_store_nothing entityId (s : @FormState manager_store)
    r session body ip userAgent :
  entityId ≠ agentId (store s) →
  heap s !! r = Some session →
  session_status session = active →
  fst (validateSubmission (session_schema session) body) = true →
  callbackReturns session (submissionOf session body ip userAgent s) →
  let context := formContext entityId (store s) in
  (∀ key, checkPermission key Awrite context (store s) = false)
  ∧ snd (submitRoute r context body ip userAgent s)
    = Some (Success (schema_successMessage (session_schema session)))
  ∧ sameSecrets (store s) (store (fst (submitRoute r context body ip userAgent s))).
Proof.
  intros Hentity Hr Hactive Hvalid Hcallback context.
  assert (∀ key, checkPermission key Awrite context (store s) = false) as Hdenied.
  { intros key. unfold checkPermission, context, formContext. simpl.
    destruct (negb _); [|done].
    apply bool_decide_eq_false_2. intros [= Heq]. by apply Hentity. }
  split; [done|].
  destruct (storeSecrets_denied (req_secrets (session_request session)) body
              context (store s) Hdenied) as (st' & Hstored & Hsame & _).
  unfold submitRoute, storeSubmittedSecrets. rewrite Hr.
  rewrite bool_decide_eq_false_2 by (by rewrite Hactive; intros ?).
  rewrite Hvalid. cbn [negb]. simpl. rewrite Hstored. simpl.
  assert (∀ sessionId (s0 : @FormState manager_store),
            store (closeSession sessionId s0) = store s0) as Hclose.
  { intros sessionId s0. unfold closeSession.
    destruct (getSession sessionId s0) as [f|]; [|done]. simpl.
    case_bool_decide; simpl;
      by destruct (closeTunnel_only (session_tunnelId f) s0) as [Hstore _]. }
  unfold callbackReturns, submissionOf in Hcallback.
  destruct (session_callback session) as [callback|].
  - destruct Hcallback as [u ->]. split; [done|]. simpl.
    case_bool_decide; [|done]. by rewrite Hclose.
  - split; [done|]. simpl. case_bool_decide; [|done]. by rewrite Hclose.
Qed.

End FormsOverManager.



(** * Scenarios *)

#[local] Existing Instance scenarioHost.

Lemma scenario_cipher : AuthenticatedCipher.
Proof.
  intros key iv plaintext. split; [done|]. simpl.
  by rewrite bool_decide_eq_true_2.
Qed.



(** C2, counterexample: [decrypt] throws on the tampered payload, yet
    [get] returns null, as it does for a key that was never set. *)
Lemma C2_tampered_record_reads_null :
  snd (decrypt (Some (VEncrypted tamperedPayload)) tamperedManager)
  = Throw authenticationError
  ∧ get "API_KEY" userContext tamperedManager
    = (fst (get "API_KEY" userContext tamperedManager), Ok None)
  ∧ snd (get "API_KEY" userContext freshManager) = Ok None.
Proof. repeat split; vm_compute; reflexivity. Qed.

(** C2, witness: the tampered record and the absent one differ in the
    log only. *)
Lemma C2_failure_modes_witness :
  (∃ s', get "API_KEY" userContext tamperedManager = (s', Ok None)
         ∧ accessLogs s' =
             pushLog (failure "API_KEY" Aread userContext authenticationError
                        tamperedManager)
               (pushLog (attempt "API_KEY" Aread userContext tamperedManager)
                  (accessLogs tamperedManager)))
  ∧ (∃ s', get "API_KEY" userContext freshManager = (s', Ok None)
           ∧ accessLogs s' =
               pushLog (attempt "API_KEY" Aread userContext freshManager)
                 (accessLogs freshManager)).
Proof.
  split.
  - destruct (C2_get_failure_modes "API_KEY" userContext tamperedManager)
      as (_ & _ & _ & Htampered).
    apply (Htampered tamperedPayload).
    + vm_compute. reflexivity.
    + exists "user-123". do 3 eexists. vm_compute.
      repeat split; intros Hempty; discriminate Hempty.
    + vm_compute. reflexivity.
  - destruct (C2_get_failure_modes "API_KEY" userContext freshManager)
      as (_ & _ & Habsent & _).
    apply Habsent.
    + vm_compute. reflexivity.
    + exists "user-123". vm_compute.
      repeat split; intros Hempty; discriminate Hempty.
Defined.

(** C3, counterexample: the requester has no role in the world, and
    the read is allowed all the same. *)
Lemma C3_world_read_ignores_role :
  (∃ world,
     getWorld "world-1" worldManager = Some world
     ∧ requesterRole world (ctx_requesterId strangerContext) = NONE)
  ∧ checkPermission "API_KEY" Aread strangerContext worldManager = true.
Proof. split; [eexists; split|]; vm_compute; reflexivity. Qed.

(** C3, witness: a user-level [set] by somebody else. *)
Lemma C3_permission_rules_witness :
  ctx_level intruderContext = Luser
  ∧ ctx_requesterId intruderContext ≠ ctx_userId intruderContext
  ∧ ∃ s',
      set "API_KEY" (VString "sk-test-123") intruderContext None tamperedManager
      = (s', Ok false)
      ∧ sameSecrets tamperedManager s'.
Proof.
  split; [reflexivity|]. split; [discriminate|].
  apply (proj2 (C3_permission_rules "API_KEY" Awrite intruderContext tamperedManager)).
  - reflexivity.
  - discriminate.
Defined.



(** C5, witness: the 1001st entry evicts the oldest one. *)
Lemma C5_log_bounded_witness :
  length (accessLogs fullManager) = 1000
  ∧ length (accessLogs (fst (logAccess "API_KEY" Aread userContext true None fullManager)))
    ≤ 1000
  ∧ ∀ k c,
      oldestEntry
      ∉ getAccessLogs k c
          (fst (logAccess "API_KEY" Aread userContext true None fullManager)).
Proof.
  assert (length (accessLogs fullManager) = 1000) as Hfull.
  { vm_compute. reflexivity. }
  split; [exact Hfull|].
  destruct (C5_log_bounded "API_KEY" Aread userContext true None fullManager)
    as (Hbound & Hevict & _).
  split; [exact Hbound|].
  destruct (Hevict oldestEntry (replicate 999 laterEntry) eq_refl Hfull)
    as [_ Hgone].
  apply Hgone. intros Hin. apply elem_of_app in Hin as [Hin|Hin].
  - apply elem_of_replicate in Hin as [Heq _]. discriminate Heq.
  - apply list_elem_of_singleton in Hin. discriminate Hin.
Defined.


(** ** Form scenarios *)


(** C8, witness: an empty payload for the required API key. *)
Lemma C8_invalid_submission_witness :
  fst (validateSubmission (session_schema (sessionOf recorder apiKeyForm)) ∅) = false
  ∧ fst (@submitRoute recorder scenarioFormHost 0 userContext ∅ None None apiKeyForm)
    = apiKeyForm
  ∧ ∃ errors,
      snd (@submitRoute recorder scenarioFormHost 0 userContext ∅ None None apiKeyForm)
      = Some (ValidationErrors errors)
      ∧ is_Some (errors !! "API_KEY").
Proof.
  assert (fst (validateSubmission (session_schema (sessionOf recorder apiKeyForm)) ∅)
          = false) as Hinvalid by (vm_compute; reflexivity).
  split; [exact Hinvalid|].
  destruct (@C8_invalid_submission_rejected recorder scenarioFormHost 0 userContext ∅
              None None apiKeyForm (sessionOf recorder apiKeyForm))
    as (Hsame & Herrors).
  - vm_compute. reflexivity.
  - exact Hinvalid.
  - split; [exact Hsame|].
    destruct Herrors as (errors & Hresponse & Hreported & _); [vm_compute; reflexivity|].
    exists errors. split; [exact Hresponse|].
    apply (Hreported (mkField "API_KEY" "API KEY" "password" true true None)).
    + vm_compute. apply list_elem_of_here.
    + vm_compute. by eexists.
Defined.

(** C9, counterexample: the submission is valid, two secrets are
    declared, and [set] is called for one of them only. *)
Lemma C9_optional_secret_not_persisted :
  fst (validateSubmission (session_schema (sessionOf recorder twoSecretsForm))
         {["API_KEY" := "sk-test-123"]}) = true
  ∧ length (req_secrets (session_request (sessionOf recorder twoSecretsForm))) = 2
  ∧ @storeSecrets recorder
      (req_secrets (session_request (sessionOf recorder twoSecretsForm)))
      {["API_KEY" := "sk-test-123"]} userContext []
    = ([("API_KEY", "sk-test-123")], Ok ()).
Proof. repeat split; vm_compute; reflexivity. Qed.

(** C9, witness: the first secret fails to persist, the second one
    is not attempted. *)
Lemma C9_persist_in_order_witness :
  @storeSecrets failingRecorder (req_secrets twoSecretsRequest)
    {["API_KEY" := "sk-test-123"; "WEBHOOK_URL" := "https://example.org/hook"]}
    userContext []
  = ([("API_KEY", "sk-test-123")], Throw "backing store unavailable").
Proof.
  rewrite (@C9_secrets_persisted_in_order failingRecorder []
             (mkSecretRequest "API_KEY"
                (mkPartial (Some "api_key") None (Some true) None None None None) None)
             [mkSecretRequest "WEBHOOK_URL"
                (mkPartial (Some "url") None (Some false) None None None None) None]
             _ userContext [] []).
  - vm_compute. reflexivity.
  - reflexivity.
Defined.

(** C10, witness: the first submission fails to persist and is kept;
    with the next one the session reaches its two submissions. *)
Lemma C10_failed_submission_witness :
  snd (@submitRoute failingRecorder scenarioFormHost 0 userContext
         {["API_KEY" := "sk-test-123"]} None None retryForm) = Some ServerError
  ∧ snd (@statusRoute failingRecorder 0 retryFailed)
    = Some (StatusReport active 1 (Some 2) 1801000%N)
  ∧ session_status (sessionOf failingRecorder retryDone) = completed.
Proof.
  destruct (@C10_failed_submission_is_kept failingRecorder scenarioFormHost 0
              userContext {["API_KEY" := "sk-test-123"]} None None retryForm
              (sessionOf failingRecorder retryForm) [("API_KEY", "sk-test-123")]
              "backing store unavailable")
    as (Hresponse & _ & _ & Hstatus & Hnext).
  - vm_compute. reflexivity.
  - vm_compute. reflexivity.
  - vm_compute. reflexivity.
  - vm_compute. reflexivity.
  - split; [exact Hresponse|]. split; [exact Hstatus|].
    destruct (Hnext {["WEBHOOK_URL" := "https://example.org/hook"]} None None
                [("API_KEY", "sk-test-123"); ("WEBHOOK_URL", "https://example.org/hook")])
      as (session2 & Hheap & Hcompleted).
    + vm_compute. reflexivity.
    + vm_compute. reflexivity.
    + unfold sessionOf, retryDone, retryFailed. rewrite Hheap. exact Hcompleted.
Defined.

(** ** The form service on the real store

    The scenario of the specification: a form for one API key, one
    submission, and the key read back from the manager. *)

Example api_key_form_end_to_end :
  snd (@submitRoute (@manager_store scenarioHost) scenarioFormHost 0 userContext
         {["API_KEY" := "sk-test-123"]} None None managedForm)
  = Some (Success "Thank you! Your information has been securely received.")
  ∧ session_status (sessionOf (@manager_store scenarioHost) managedSubmitted) = completed
  ∧ snd (get "API_KEY" userContext (@store (@manager_store scenarioHost) managedSubmitted))
    = Ok (Some (VString "sk-test-123")).
Proof. repeat split; vm_compute; reflexivity. Qed.

(** ** Scenarios for the frames of the store *)

(** X2, witness: a user-level write and a world-level read. *)
Lemma X2_levels_witness :
  snd (get "API_KEY" strangerContext
         (fst (set "API_KEY" (VString "sk-test-123") userContext None worldManager)))
  = snd (get "API_KEY" strangerContext worldManager).
Proof.
  apply (X2_levels_do_not_interfere "API_KEY" (VString "sk-test-123") userContext None
           worldManager "API_KEY" strangerContext).
  discriminate.
Defined.

(** X3, witness: a write in [world-1] and a read in [world-2]. *)
Lemma X3_worlds_witness :
  snd (get "API_KEY" otherWorldContext
         (fst (set "API_KEY" (VString "sk-test-123") ownerContext None worldManager)))
  = snd (get "API_KEY" otherWorldContext worldManager).
Proof.
  apply (X3_worlds_do_not_interfere "API_KEY" (VString "sk-test-123") ownerContext None
           worldManager "API_KEY" otherWorldContext).
  - reflexivity.
  - reflexivity.
  - vm_compute. intros Hsame. discriminate Hsame.
Defined.

(** X4, witness: the secret of [world-1] outlives [stop], the listing
    does not. *)
Lemma X4_stop_witness :
  snd (get "API_KEY" ownerContext (fst (stop ownedSecret)))
  = Ok (Some (VString "sk-test-123"))
  ∧ snd (listSecrets ownerContext (fst (stop ownedSecret))) = Ok ∅.
Proof.
  destruct (X4_stop_keeps_world_and_user_secrets "API_KEY" "sk-test-123" ownerContext
              None worldManager ownedSecret) as (_ & _ & Hworld).
  - exact scenario_cipher.
  - discriminate.
  - vm_compute. reflexivity.
  - exact Hworld.
Defined.

(** X5, witness: an encrypted user-level secret, kept in the clear in
    the metadata of its component. *)
Lemma X5_plaintext_witness :
  recordAt "API_KEY" userContext
    (fst (set "API_KEY" (VString "sk-test-123") userContext None freshManager))
    ≫= cfg_value
  = Some (VString "sk-test-123")
  ∧ recordAt "API_KEY" userContext
      (fst (set "API_KEY" (VString "sk-test-123") userContext None freshManager))
      ≫= cfg_encrypted
    = Some true.
Proof.
  apply (X5_plaintext_kept_in_record "API_KEY" (VString "sk-test-123") userContext None
           freshManager).
  - vm_compute. reflexivity.
  - discriminate.
Defined.

(** X6, witness: the agent grants [user-456] read access to a global
    secret. *)
Lemma X6_grant_witness :
  snd (grantAccess "API_KEY" agentContext "user-456" ["read"] globalSecret) = Ok true
  ∧ recordAt "API_KEY" agentContext sharedSecret ≫= cfg_sharedWith = None
  ∧ snd (checkAccess "API_KEY" agentContext None (Some "user-456") "read" sharedSecret)
    = Ok true.
Proof.
  split; [vm_compute; reflexivity|].
  destruct (X6_grant_appends_and_first_entry_wins "API_KEY" agentContext "user-456"
              ["read"] globalSecret sharedSecret)
    as (config & _ & _ & Hshared & _).
  - vm_compute. reflexivity.
  - split; [exact Hshared|]. vm_compute. reflexivity.
Defined.

(** X7, witness: and revokes it. *)
Lemma X7_revoke_witness :
  snd (revokeAccess "API_KEY" agentContext "user-456" sharedSecret) = Ok true
  ∧ snd (checkAccess "API_KEY" agentContext None (Some "user-456") "read"
           (fst (revokeAccess "API_KEY" agentContext "user-456" sharedSecret)))
    = Ok false.
Proof.
  split; [vm_compute; reflexivity|].
  destruct (X7_revoke_removes_every_entry "API_KEY" agentContext "user-456" sharedSecret
              (fst (revokeAccess "API_KEY" agentContext "user-456" sharedSecret)))
    as (config & _ & _ & _ & Hrefused).
  - vm_compute. reflexivity.
  - apply Hrefused; discriminate.
Defined.

(** X20, witness: a key sealed and opened by the fresh manager. *)
Lemma X20_roundtrip_witness :
  ∃ e, snd (encrypt (VString "sk-test-123") freshManager) = Ok e
       ∧ snd (decrypt (Some (VEncrypted e)) freshManager) = Ok "sk-test-123".
Proof.
  destruct (X20_encrypt_then_decrypt "sk-test-123" freshManager scenario_cipher)
    as (e & Hencrypt & _ & _ & _ & Hdecrypt & _).
  exists e. split; [by rewrite Hencrypt|]. by rewrite (Hdecrypt freshManager eq_refl).
Defined.


(** ** Scenarios for the life of a form *)

(** X11, witness: a tunnel asked for with duration zero lives thirty
    minutes. *)
Lemma X11_zero_duration_witness :
  @isTunnelActive recorder "id0"
    (@step recorder scenarioFormHost (Elapse (29 * 60 * 1000)%N) zeroTunnel) = true
  ∧ @isTunnelActive recorder "id0"
      (@step recorder scenarioFormHost (Elapse (30 * 60 * 1000)%N) zeroTunnel) = false.
Proof.
  destruct (@X11_tunnel_lifetime recorder scenarioFormHost 10000%N "secret-form"
              (Some 0%N) (startedForms recorder []) zeroTunnel "id0"
              "https://tunnel.example/10000")
    as (_ & Hactive & _).
  - vm_compute. reflexivity.
  - split; rewrite Hactive; vm_compute; reflexivity.
Defined.


(** X14, witness: the sweep closes the form whose five minutes have
    passed. *)
Lemma X14_sweep_witness :
  is_Some (@getSession recorder "id2" lateForm)
  ∧ @getSession recorder "id2" (@cleanupExpiredSessions recorder scenarioFormHost lateForm)
    = None.
Proof.
  split; [vm_compute; eauto|].
  destruct (@X14_sweep_and_stop recorder scenarioFormHost lateForm) as (Hswept & _).
  - apply (@createSecretForm_registered recorder scenarioFormHost).
    apply startedForms_registered.
  - rewrite Hswept. vm_compute. reflexivity.
Defined.

(** X19, witness: the form of the action for [user-123], submitted
    to. *)
Lemma X19_action_form_witness :
  snd (@submitRoute (@manager_store scenarioHost) scenarioFormHost 0
         (formContext "user-123" freshManager) {["API_KEY" := "sk-test-123"]}
         None None managedForm)
  = Some (Success "Thank you! Your information has been securely received.")
  ∧ sameSecrets freshManager
      (@store (@manager_store scenarioHost)
         (fst (@submitRoute (@manager_store scenarioHost) scenarioFormHost 0
                 (formContext "user-123" freshManager) {["API_KEY" := "sk-test-123"]}
                 None None managedForm))).
Proof.
  destruct (@X19_action_forms_store_nothing scenarioHost scenarioFormHost "user-123"
              managedForm 0 (sessionOf (@manager_store scenarioHost) managedForm)
              {["API_KEY" := "sk-test-123"]} None None)
    as (_ & Hanswer & Hsame).
  - vm_compute. intros Hagent. discriminate Hagent.
  - vm_compute. reflexivity.
  - vm_compute. reflexivity.
  - vm_compute. reflexivity.
  - exact I.
  - split; [exact Hanswer|exact Hsame].
Defined.

(** X15, witness: after a form is created and submitted to, no session
    is marked expired. *)
Lemma X15_none_expired_witness :
  @noneExpired recorder
    (@run recorder scenarioFormHost
       [Create apiKeyRequest None;
        Incoming 0 userContext (PostSubmit {["API_KEY" := "sk-test-123"]} None None);
        Elapse 360000%N; Sweep]
       (startedForms recorder [])).
Proof.
  apply (proj1 (@X15_deadline_is_left_to_the_sweep recorder scenarioFormHost
                  (startedForms recorder []))).
  apply Forall_nil_2.
Defined.

(** X17, witness: an empty payload sent to the form for one API key. *)
Lemma X17_errors_witness :
  default ∅ (snd (validateSubmission
                    (snd (@generateFormSchema recorder scenarioFormHost apiKeyRequest
                            (startedForms recorder [])))
                    ∅))
    !! "API_KEY"
  = Some "API KEY is required".
Proof.
  destruct (X17_validation_errors
              (snd (@generateFormSchema recorder scenarioFormHost apiKeyRequest
                      (startedForms recorder [])))
              ∅) as (_ & _ & _ & Hmap).
  apply (Hmap (NoDup_singleton "API_KEY")
           (@createFormField scenarioFormHost "API_KEY"
              (mkPartial (Some "api_key") None (Some true) None None None None) None)).
  apply list_elem_of_here.
Defined.

(** X1, witness: [user-123] grants [user-456] read access to a secret
    of theirs, and [user-456] still reads null. *)
Lemma X1_grantee_witness :
  snd (get "API_KEY" intruderContext
         (fst (grantAccess "API_KEY" userContext "user-456" ["read"]
                 (fst (set "API_KEY" (VString "sk-test-123") userContext None
                         freshManager)))))
  = Ok None.
Proof.
  destruct (X1_grants_do_not_change_permissions "API_KEY" userContext
              (fst (set "API_KEY" (VString "sk-test-123") userContext None
                      freshManager)))
    as (_ & _ & _ & Hgrantee).
  apply (Hgrantee "user-456" ["read"]).
  - reflexivity.
  - discriminate.
Defined.

(** X22, witness: the key is stored and the form closed, and the
    answer is a 500. *)
Lemma X22_callback_witness :
  snd (@submitRoute recorder scenarioFormHost 0 userContext
         {["API_KEY" := "sk-test-123"]} None None notifyingForm)
  = Some ServerError
  ∧ @store recorder
      (fst (@submitRoute recorder scenarioFormHost 0 userContext
              {["API_KEY" := "sk-test-123"]} None None notifyingForm))
    = [("API_KEY", "sk-test-123")]
  ∧ @getSession recorder "id2"
      (fst (@submitRoute recorder scenarioFormHost 0 userContext
              {["API_KEY" := "sk-test-123"]} None None notifyingForm))
    = None.
Proof.
  destruct (@X22_callback_failure_comes_too_late recorder scenarioFormHost 0 userContext
              {["API_KEY" := "sk-test-123"]} None None notifyingForm
              (sessionOf recorder notifyingForm) [("API_KEY", "sk-test-123")]
              (λ _, Throw "notification failed") "notification failed")
    as (Hanswer & Hstore & _ & Hclosed).
  - vm_compute. reflexivity.
  - vm_compute. reflexivity.
  - vm_compute. reflexivity.
  - vm_compute. reflexivity.
  - vm_compute. reflexivity.
  - vm_compute. reflexivity.
  - split; [exact Hanswer|]. split; [exact Hstore|].
    apply Hclosed. vm_compute. reflexivity.
Defined.

(** X23, witness: the first of two submissions allowed. *)
Lemma X23_first_of_two_witness :
  @store recorder
    (fst (@submitRoute recorder scenarioFormHost 0 userContext
            {["API_KEY" := "sk-test-123"]} None None twoTriesForm))
  = [("API_KEY", "sk-test-123")]
  ∧ @sessions recorder
      (fst (@submitRoute recorder scenarioFormHost 0 userContext
              {["API_KEY" := "sk-test-123"]} None None twoTriesForm))
    = @sessions recorder twoTriesForm.
Proof.
  destruct (@X23_limit_is_counted recorder scenarioFormHost 0 userContext
              {["API_KEY" := "sk-test-123"]} None None twoTriesForm
              (sessionOf recorder twoTriesForm) [("API_KEY", "sk-test-123")])
    as (Hstore & Hopen).
  - vm_compute. reflexivity.
  - vm_compute. reflexivity.
  - vm_compute. reflexivity.
  - vm_compute. reflexivity.
  - split; [exact Hstore|]. exact (proj1 (proj2 Hopen)).
Defined.
